(** * A trace-driven cache simulator: cache.c and cachesim.c

    A shallow embedding of the cache model of the simulator (geometry
    validation, address widths, address decoding, hit/miss detection, the
    miss handler, the LRU bookkeeping, the performance counters) and of the
    control flow of the driver, with the properties of the behavioural
    description stated and settled against it.

    Conventions.
    - An [unsigned int] is a [Z] in [0, 2^32); every operation that can leave
      that range is followed by [wrap].
    - A function that can end the process or run into undefined behaviour
      returns an [outcome].
    - [struct cache_block** blocks] is a list of rows, one row per set; reads
      and writes go through list lookup and insert, and an access outside the
      allocated rows is a [Crashed OutOfBounds]. *)

From Stdlib Require Import ZArith Lia Bool List.
From stdpp Require Import base list.

Local Open Scope Z_scope.

(** ** Machine integers *)

Module Machine.

(** [sizeof(int) << 3]: the loops of [is_power_of_two] and [log_two] run over
    the bits of an [int], which has 4 bytes on both data models below. *)
Definition int_bits : nat := 32.

Definition modulus : Z := 2 ^ 32.

(** Reduction of a mathematical result to [unsigned int]. *)
Definition wrap (z : Z) : Z := z mod modulus.

(** Membership in the range of [unsigned int]. *)
Definition uint (z : Z) : Prop := 0 <= z < modulus.

(** The only thing the code asks of the platform is [sizeof(void* )]. *)
Inductive data_model : Type := ILP32 | LP64.

Definition sizeof_void_ptr (dm : data_model) : Z :=
  match dm with ILP32 => 4 | LP64 => 8 end.

End Machine.

Import Machine.

(** ** Outcomes of a call *)

Inductive fault : Type :=
| DivisionByZero
| NullDereference
| OutOfBounds.

Inductive outcome (A : Type) : Type :=
| Returned (a : A)
| Exited (status : Z)
| Crashed (f : fault).

Arguments Returned {A} a.
Arguments Exited {A} status.
Arguments Crashed {A} f.

Definition bind {A B : Type} (o : outcome A) (k : A -> outcome B) : outcome B :=
  match o with
  | Returned a => k a
  | Exited s => Exited s
  | Crashed f => Crashed f
  end.

Notation "x <- o ;; k" := (bind o (fun x => k))
  (at level 100, o at next level, right associativity).

(** ** cache_structs.h, trace_file_parser.h *)

Record address_info : Type := mk_address_info {
  address_width : Z;
  offset_width : Z;
  index_width : Z;
  tag_width : Z
}.

Record cache_perf : Type := mk_cache_perf {
  instruction_reference_count : Z;
  instruction_miss_count : Z;
  data_read_reference_count : Z;
  data_read_miss_count : Z;
  data_write_reference_count : Z;
  data_write_miss_count : Z
}.

Record cache_block : Type := mk_cache_block {
  valid : bool;
  dirty : bool;
  lru_value : Z;
  tag : Z
}.

Record cache : Type := mk_cache {
  size : Z;
  associativity : Z;
  number_of_sets : Z;
  block_size : Z;
  addr_info : address_info;
  blocks : list (list cache_block);
  perf : cache_perf
}.

(** [enum REFERENCE_TYPE {INSTRUCTION, DATA_READ, DATA_WRITE}].  An object of
    the type holds an integer, and nothing keeps it to the three enumerators:
    [get_next_reference] returns its [type] field unassigned when the letter
    read from the trace is none of I, R and W (or when the line cannot be
    parsed), and [main] hands the reference to [do_reference] all the same.
    The code looks at the value only to compare it with the enumerators
    ([m.type == DATA_WRITE] and the two [switch] statements), so one more
    constructor, [OUT_OF_RANGE], stands for every other value. *)
Inductive REFERENCE_TYPE : Type :=
| INSTRUCTION
| DATA_READ
| DATA_WRITE
| OUT_OF_RANGE.

Record memory_reference : Type := mk_memory_reference {
  address : Z;
  type : REFERENCE_TYPE
}.

(** ** is_power_of_two, log_two *)

(** The counting loop of [is_power_of_two]: [fuel] iterations remain. *)
Fixpoint count_bits (fuel : nat) (number count : Z) : Z :=
  match fuel with
  | O => count
  | S fuel' =>
      count_bits fuel' (Z.shiftr number 1)
        (if Z.land number 1 =? 0 then count else wrap (count + 1))
  end.

Definition is_power_of_two (n : Z) : bool :=
  count_bits int_bits n 0 =? 1.

(** The search loop of [log_two], at iteration [i] with [fuel] iterations
    remaining. *)
Fixpoint first_one (fuel : nat) (i : Z) (number : Z) : Z :=
  match fuel with
  | O => -1
  | S fuel' =>
      if Z.land number 1 =? 1 then i
      else first_one fuel' (i + 1) (Z.shiftr number 1)
  end.

(** Returns an [int]: the exponent, or -1. *)
Definition log_two (n : Z) : Z :=
  if negb (is_power_of_two n) then -1 else first_one int_bits 0 n.

(** ** Record updates *)

Definition with_addr_info (c : cache) (a : address_info) : cache :=
  mk_cache (size c) (associativity c) (number_of_sets c) (block_size c)
           a (blocks c) (perf c).

Definition with_blocks (c : cache) (bs : list (list cache_block)) : cache :=
  mk_cache (size c) (associativity c) (number_of_sets c) (block_size c)
           (addr_info c) bs (perf c).

Definition with_perf (c : cache) (p : cache_perf) : cache :=
  mk_cache (size c) (associativity c) (number_of_sets c) (block_size c)
           (addr_info c) (blocks c) p.

Definition with_lru_value (b : cache_block) (v : Z) : cache_block :=
  mk_cache_block (valid b) (dirty b) v (tag b).

(** [c->blocks[index][i]] as an rvalue. *)
Definition get_block (index : Z) (i : nat) (c : cache) : outcome cache_block :=
  match blocks c !! Z.to_nat index with
  | None => Crashed OutOfBounds
  | Some row =>
      match row !! i with
      | None => Crashed OutOfBounds
      | Some b => Returned b
      end
  end.

(** [c->blocks[index][i] = b]; only used after a successful read of the same
    place. *)
Definition set_block (index : Z) (i : nat) (b : cache_block) (c : cache) : cache :=
  match blocks c !! Z.to_nat index with
  | None => c
  | Some row => with_blocks c (<[Z.to_nat index := <[i := b]> row]> (blocks c))
  end.

(** [c->blocks[index]] as an rvalue. *)
Definition get_set (index : Z) (c : cache) : outcome (list cache_block) :=
  match blocks c !! Z.to_nat index with
  | None => Crashed OutOfBounds
  | Some row => Returned row
  end.

(** ** determine_address_widths *)

Definition determine_address_widths (dm : data_model) (c : cache) : cache :=
  let width := wrap (Z.shiftl (sizeof_void_ptr dm) 3) in
  let offset_width' := wrap (log_two (block_size c)) in
  let index_width' := wrap (log_two (number_of_sets c)) in
  let tag_width' := wrap (wrap (width - offset_width') - index_width') in
  let a0 := mk_address_info 0 0 0 0 in
  let a1 :=
    if offset_width' =? wrap (-1) then a0
    else mk_address_info (address_width a0) offset_width'
                         (index_width a0) (tag_width a0) in
  let a2 :=
    if index_width' =? wrap (-1) then a1
    else mk_address_info (address_width a1) (offset_width a1)
                         index_width' (tag_width a1) in
  let a3 :=
    if negb (offset_width' =? wrap (-1)) && negb (index_width' =? wrap (-1))
    then mk_address_info width (offset_width a2) (index_width a2) tag_width'
    else a2 in
  with_addr_info c a3.

(** ** create_cache_struct *)

(** A block as the initialisation loop leaves it: [valid], [dirty] and [tag]
    are assigned, [lru_value] keeps whatever [malloc] handed out. *)
Definition fresh_block (garbage : Z) : cache_block :=
  mk_cache_block false false (wrap garbage) 0.

Definition zero_perf : cache_perf := mk_cache_perf 0 0 0 0 0 0.

(** The allocation and initialisation loops: one row per set, one block
    per way. *)
Definition initial_blocks (heap : nat -> nat -> Z) (associativity sets : Z)
    : list (list cache_block) :=
  map (fun i => map (fun j => fresh_block (heap i j))
                    (seq 0 (Z.to_nat associativity)))
      (seq 0 (Z.to_nat sets)).

(** [heap i j] is the content of the freshly allocated memory behind
    [blocks[i][j].lru_value]; every [malloc] is taken to succeed.
    [Returned None] is the NULL pointer. *)
Definition create_cache_struct (dm : data_model) (heap : nat -> nat -> Z)
    (size associativity block_size : Z) : outcome (option cache) :=
  if negb (is_power_of_two block_size) then Returned None
  else
    let divisor := wrap (associativity * block_size) in
    if divisor =? 0 then Crashed DivisionByZero
    else
      let number_of_sets := size / divisor in
      if number_of_sets =? 0 then Returned None
      else if negb (is_power_of_two number_of_sets) then Returned None
      else
        let blocks := initial_blocks heap associativity number_of_sets in
        let retval :=
          mk_cache size associativity number_of_sets block_size
                   (mk_address_info 0 0 0 0) blocks zero_perf in
        Returned (Some (determine_address_widths dm retval)).

(** ** Address decoding *)

Definition get_index_from_address (address : Z) (c : cache) : Z :=
  let mask := wrap (Z.shiftl 1 (index_width (addr_info c)) - 1) in
  Z.land (Z.shiftr address (offset_width (addr_info c))) mask.

Definition get_tag_from_address (address : Z) (c : cache) : Z :=
  let bits_to_shift :=
    wrap (offset_width (addr_info c) + index_width (addr_info c)) in
  Z.shiftr address bits_to_shift.

(** ** is_miss *)

Fixpoint is_miss_loop (fuel : nat) (i : nat) (tg index : Z) (c : cache)
    : outcome bool :=
  match fuel with
  | O => Returned true
  | S fuel' =>
      temp <- get_block index i c ;;
      if (tag temp =? tg) && valid temp then Returned false
      else is_miss_loop fuel' (S i) tg index c
  end.

Definition is_miss (tg index : Z) (c : cache) : outcome bool :=
  _ <- get_set index c ;;
  is_miss_loop (Z.to_nat (associativity c)) 0 tg index c.

(** ** handle_miss *)

Definition handle_miss (tg index : Z) (write : bool) (c : cache)
    : outcome cache :=
  if negb (associativity c =? 1) then Exited 1
  else
    b <- get_block index 0 c ;;
    Returned (set_block index 0 (mk_cache_block true write (lru_value b) tg) c).

(** ** update_lru_info *)

(** The first loop.  [None] is the early [return] on a most recently used
    match, [Some k] the value of [block_index] when the loop runs out. *)
Fixpoint find_block (fuel : nat) (i : nat) (block_index : nat)
    (tg index : Z) (c : cache) : outcome (option nat) :=
  match fuel with
  | O => Returned (Some block_index)
  | S fuel' =>
      b <- get_block index i c ;;
      if valid b && (tag b =? tg) then
        if lru_value b =? 0 then Returned None
        else find_block fuel' (S i) i tg index c
      else find_block fuel' (S i) block_index tg index c
  end.

(** The second loop. *)
Fixpoint age_blocks (fuel : nat) (i : nat) (block_index : nat)
    (index : Z) (c : cache) : outcome cache :=
  match fuel with
  | O => Returned c
  | S fuel' =>
      b <- get_block index i c ;;
      let b1 := if Nat.eqb i block_index then with_lru_value b 0 else b in
      let b2 :=
        if negb (Nat.eqb i block_index)
        then with_lru_value b1 (wrap (lru_value b1 + 1)) else b1 in
      age_blocks fuel' (S i) block_index index (set_block index i b2 c)
  end.

Definition update_lru_info (tg index : Z) (c : cache) : outcome cache :=
  found <- find_block (Z.to_nat (associativity c)) 0 0 tg index c ;;
  match found with
  | None => Returned c
  | Some block_index =>
      age_blocks (Z.to_nat (associativity c)) 0 block_index index c
  end.

(** ** do_reference *)

(** The two [switch] statements on [m.type].  The last arm of each is the
    [default:] of the source (do nothing): a reference whose type is none of
    the enumerators is counted nowhere. *)

Definition count_miss (t : REFERENCE_TYPE) (p : cache_perf) : cache_perf :=
  match t with
  | INSTRUCTION =>
      mk_cache_perf (instruction_reference_count p)
        (wrap (instruction_miss_count p + 1))
        (data_read_reference_count p) (data_read_miss_count p)
        (data_write_reference_count p) (data_write_miss_count p)
  | DATA_READ =>
      mk_cache_perf (instruction_reference_count p) (instruction_miss_count p)
        (data_read_reference_count p) (wrap (data_read_miss_count p + 1))
        (data_write_reference_count p) (data_write_miss_count p)
  | DATA_WRITE =>
      mk_cache_perf (instruction_reference_count p) (instruction_miss_count p)
        (data_read_reference_count p) (data_read_miss_count p)
        (data_write_reference_count p) (wrap (data_write_miss_count p + 1))
  | _ => p
  end.

Definition count_reference (t : REFERENCE_TYPE) (p : cache_perf) : cache_perf :=
  match t with
  | INSTRUCTION =>
      mk_cache_perf (wrap (instruction_reference_count p + 1))
        (instruction_miss_count p)
        (data_read_reference_count p) (data_read_miss_count p)
        (data_write_reference_count p) (data_write_miss_count p)
  | DATA_READ =>
      mk_cache_perf (instruction_reference_count p) (instruction_miss_count p)
        (wrap (data_read_reference_count p + 1)) (data_read_miss_count p)
        (data_write_reference_count p) (data_write_miss_count p)
  | DATA_WRITE =>
      mk_cache_perf (instruction_reference_count p) (instruction_miss_count p)
        (data_read_reference_count p) (data_read_miss_count p)
        (wrap (data_write_reference_count p + 1)) (data_write_miss_count p)
  | _ => p
  end.

Definition do_reference (m : memory_reference) (c : cache) : outcome cache :=
  let tg := get_tag_from_address (address m) c in
  let index := get_index_from_address (address m) c in
  miss <- is_miss tg index c ;;
  c1 <- (if miss : bool then
           let is_write :=
             match type m with DATA_WRITE => true | _ => false end in
           c' <- handle_miss tg index is_write c ;;
           Returned (with_perf c' (count_miss (type m) (perf c')))
         else Returned c) ;;
  c2 <- update_lru_info tg index c1 ;;
  Returned (with_perf c2 (count_reference (type m) (perf c2))).

(** A run of [do_reference] over a sequence of references. *)
Fixpoint do_references (trace : list memory_reference) (c : cache)
    : outcome cache :=
  match trace with
  | [] => Returned c
  | m :: rest => c' <- do_reference m c ;; do_references rest c'
  end.

(** ** cachesim.c *)

(** [do_reference(mr, c)] through the pointer the driver holds. *)
Definition do_reference_ptr (m : memory_reference) (c : option cache)
    : outcome (option cache) :=
  match c with
  | None => Crashed NullDereference
  | Some c0 => c1 <- do_reference m c0 ;; Returned (Some c1)
  end.

(** The [while (is_next_reference())] loop over the references the trace
    reader still has to deliver. *)
Fixpoint reference_loop (trace : list memory_reference) (c : option cache)
    : outcome (option cache) :=
  match trace with
  | [] => Returned c
  | mr :: rest => c' <- do_reference_ptr mr c ;; reference_loop rest c'
  end.

(** [main], from the values [atoi] produced.  [trace] is [None] when the
    trace file cannot be opened ([feof] is then called on a NULL stream), and
    otherwise the references the reader delivers, those of type
    [OUT_OF_RANGE] included.  The value returned is the one [main] returns. *)
Definition main (dm : data_model) (heap : nat -> nat -> Z) (argc : Z)
    (cache_size cache_associativity cache_block_size : Z)
    (trace : option (list memory_reference)) : outcome Z :=
  let retval := 0 in
  if negb (argc =? 5) then Returned (-1)
  else
    let retval := if cache_size <=? 0 then -1 else retval in
    let retval := if cache_associativity <=? 0 then -1 else retval in
    let retval := if cache_block_size <=? 0 then -1 else retval in
    let retval :=
      if (cache_size <? cache_block_size) || (cache_size <? cache_associativity)
      then -1 else retval in
    if retval =? -1 then Returned retval
    else
      c <- create_cache_struct dm heap (wrap cache_size)
             (wrap cache_associativity) (wrap cache_block_size) ;;
      match trace with
      | None => Crashed NullDereference
      | Some refs =>
          c' <- reference_loop refs c ;;
          match c' with
          | None => Crashed NullDereference
          | Some _ => Returned retval
          end
      end.

(** ** Predicates used in the statements *)

Definition power_of_two (n : Z) : Prop := exists k, 0 <= k /\ n = 2 ^ k.

(** The caches the program can hold: what [create_cache_struct] returns, and
    what [do_reference] turns such a cache into when it returns. *)
Inductive reachable (dm : data_model) : cache -> Prop :=
| reachable_create heap size associativity block_size c :
    uint size -> uint associativity -> uint block_size ->
    create_cache_struct dm heap size associativity block_size
      = Returned (Some c) ->
    reachable dm c
| reachable_reference c m c' :
    reachable dm c -> uint (address m) ->
    do_reference m c = Returned c' ->
    reachable dm c'.

(** Shape of the storage: one row per set, [associativity] blocks per row,
    and an index mask that stays below the number of sets. *)
Definition wf_cache (c : cache) : bool :=
  Nat.eqb (length (blocks c)) (Z.to_nat (number_of_sets c))
  && forallb (fun row => Nat.eqb (length row) (Z.to_nat (associativity c)))
             (blocks c)
  && (wrap (Z.shiftl 1 (index_width (addr_info c)) - 1) <? number_of_sets c).

(** Number of blocks of a set whose recency is 0. *)
Definition mru_count (row : list cache_block) : nat :=
  length (List.filter (fun b => lru_value b =? 0) row).

Definition sum_reference_counts (p : cache_perf) : Z :=
  instruction_reference_count p + data_read_reference_count p
  + data_write_reference_count p.

(** [t] is one of the three enumerators: the categories the code keeps
    counters for. *)
Definition counted (t : REFERENCE_TYPE) : bool :=
  match t with
  | INSTRUCTION | DATA_READ | DATA_WRITE => true
  | OUT_OF_RANGE => false
  end.

(** The reference counter and the miss counter of category [t].  There is
    none for [OUT_OF_RANGE]; the statements below read these two functions at
    counted categories only. *)
Definition reference_count (t : REFERENCE_TYPE) (p : cache_perf) : Z :=
  match t with
  | INSTRUCTION => instruction_reference_count p
  | DATA_READ => data_read_reference_count p
  | DATA_WRITE => data_write_reference_count p
  | OUT_OF_RANGE => 0
  end.

Definition miss_count (t : REFERENCE_TYPE) (p : cache_perf) : Z :=
  match t with
  | INSTRUCTION => instruction_miss_count p
  | DATA_READ => data_read_miss_count p
  | DATA_WRITE => data_write_miss_count p
  | OUT_OF_RANGE => 0
  end.

(** ** The description's side of the comparisons

    The definitions of this module follow the words of the behavioural
    description, not the code: the replacement contract (victim selection and
    install), the touch step, and the recombination of a decoded address. *)

Module Spec.

(** Follows the description, not the code: the victim is the block with the
    maximum recency, the lowest index winning a tie.  [best] is the candidate
    so far and [i] the index of the head of [row]. *)
Fixpoint lru_victim_from (row : list cache_block) (i best : nat)
    (best_lru : Z) : nat :=
  match row with
  | [] => best
  | b :: rest =>
      if best_lru <? lru_value b
      then lru_victim_from rest (S i) i (lru_value b)
      else lru_victim_from rest (S i) best best_lru
  end.

Definition lru_victim (row : list cache_block) : nat :=
  match row with
  | [] => O
  | b :: rest => lru_victim_from rest 1 0 (lru_value b)
  end.

(** Follows the description: install on a miss overwrites the victim with
    [valid = true], [dirty = is_write], [tag = tag]. *)
Definition lru_install (tg index : Z) (is_write : bool) (c : cache) : cache :=
  match blocks c !! Z.to_nat index with
  | None => c
  | Some row =>
      match row !! lru_victim row with
      | None => c
      | Some b =>
          set_block index (lru_victim row)
            (mk_cache_block true is_write (lru_value b) tg) c
      end
  end.

(** Follows the description: the touch step when it does change the set.
    The touched block [k] gets recency 0, every other block one more. *)
Definition touch_row (k : nat) (row : list cache_block) : list cache_block :=
  imap (fun j b =>
          if Nat.eqb j k then with_lru_value b 0
          else with_lru_value b (lru_value b + 1)) row.

(** Follows the description: the offset field of an address.  The code never
    extracts it. *)
Definition get_offset_from_address (address : Z) (c : cache) : Z :=
  Z.land address (Z.shiftl 1 (offset_width (addr_info c)) - 1).

(** Follows the description: the address rebuilt from its three fields. *)
Definition recombine (address : Z) (c : cache) : Z :=
  Z.lor
    (Z.lor
       (Z.shiftl (get_tag_from_address address c)
          (offset_width (addr_info c) + index_width (addr_info c)))
       (Z.shiftl (get_index_from_address address c)
          (offset_width (addr_info c))))
    (get_offset_from_address address c).

End Spec.

(** ** Notions used in the proofs *)

(** What [set_block] leaves alone. *)
Definition frame_outside (n : nat) (c c' : cache) : Prop :=
  size c' = size c /\ associativity c' = associativity c /\
  number_of_sets c' = number_of_sets c /\ block_size c' = block_size c /\
  addr_info c' = addr_info c /\ perf c' = perf c /\
  forall j, j <> n -> blocks c' !! j = blocks c !! j.

(** The update applied to block [j] by the second loop of
    [update_lru_info]. *)
Definition age (k j : nat) (b : cache_block) : cache_block :=
  if Nat.eqb j k then with_lru_value b 0
  else with_lru_value b (wrap (lru_value b + 1)).

(** A row after the second loop of [update_lru_info] has run over it. *)
Definition age_row (k : nat) (row : list cache_block) : list cache_block :=
  imap (age k) row.

(** [b] answers a lookup of [tg]. *)
Definition matches (tg : Z) (b : cache_block) : bool :=
  (tag b =? tg) && valid b.

(** Every block is still as [create_cache_struct] initialised it. *)
Definition all_invalid (c : cache) : Prop :=
  forall n row k b, blocks c !! n = Some row -> row !! k = Some b ->
                    valid b = false.

(** What holds of every cache the program can hold. *)
Definition consistent (c : cache) : Prop :=
  wf_cache c = true /\
  (associativity c <> 1 -> all_invalid c) /\
  (forall n row k b, blocks c !! n = Some row -> row !! k = Some b ->
                     valid b = true -> lru_value b = 0).

Definition REFERENCE_TYPE_eqb (a b : REFERENCE_TYPE) : bool :=
  match a, b with
  | INSTRUCTION, INSTRUCTION | DATA_READ, DATA_READ
  | DATA_WRITE, DATA_WRITE | OUT_OF_RANGE, OUT_OF_RANGE => true
  | _, _ => false
  end.

(** Every counter of [p] is at most the matching counter of [q]. *)
Definition perf_le (p q : cache_perf) : Prop :=
  forall t, reference_count t p <= reference_count t q /\
            miss_count t p <= miss_count t q.

(** Every counter of [p] lies in [0, n]. *)
Definition perf_within (n : Z) (p : cache_perf) : Prop :=
  forall t, 0 <= reference_count t p <= n /\ 0 <= miss_count t p <= n.

(** ** Concrete caches and references *)

(** Stale memory: block [j] of every set starts with recency [10 + j]. *)
Definition stale_heap : nat -> nat -> Z := fun _ j => 10 + Z.of_nat j.

(** [create_cache_struct(4, 1, 1)]: four sets of one block. *)
Definition direct_mapped : cache :=
  mk_cache 4 1 4 1 (mk_address_info 32 0 2 30)
    [[fresh_block 10]; [fresh_block 10]; [fresh_block 10]; [fresh_block 10]]
    zero_perf.

(** [create_cache_struct(4, 2, 1)]: two sets of two blocks. *)
Definition two_way : cache :=
  mk_cache 4 2 2 1 (mk_address_info 32 0 1 31)
    [[fresh_block 10; fresh_block 11]; [fresh_block 10; fresh_block 11]]
    zero_perf.

(** A two-way cache in use, as a set-associative miss handler would leave
    it: set 0 holds tags 0 and 1, tag 1 being the most recently used. *)
Definition two_way_warm : cache :=
  mk_cache 4 2 2 1 (mk_address_info 32 0 1 31)
    [[mk_cache_block true false 1 0; mk_cache_block true false 0 1];
     [fresh_block 10; fresh_block 11]]
    (mk_cache_perf 2 2 0 0 0 0).

(** [direct_mapped] after an instruction fetch at address 0. *)
Definition direct_mapped_used : cache :=
  mk_cache 4 1 4 1 (mk_address_info 32 0 2 30)
    [[mk_cache_block true false 0 0]; [fresh_block 10]; [fresh_block 10];
     [fresh_block 10]]
    (mk_cache_perf 1 1 0 0 0 0).

(** [direct_mapped] once address 0 has been fetched, with [k] instruction
    references counted. *)
Definition direct_mapped_hot (k : Z) : cache :=
  mk_cache 4 1 4 1 (mk_address_info 32 0 2 30)
    [[mk_cache_block true false 0 0]; [fresh_block 10]; [fresh_block 10];
     [fresh_block 10]]
    (mk_cache_perf k 1 0 0 0 0).

Definition fetch_0 : memory_reference := mk_memory_reference 0 INSTRUCTION.

(** [direct_mapped] after a reference at address 0 whose type is none of the
    enumerators: the block is installed and no counter has moved. *)
Definition direct_mapped_uncounted : cache :=
  mk_cache 4 1 4 1 (mk_address_info 32 0 2 30)
    [[mk_cache_block true false 0 0]; [fresh_block 10]; [fresh_block 10];
     [fresh_block 10]]
    zero_perf.

(** ** The statistics of cachesim.c *)

(** Conversion of an [unsigned int] to [int] (two's complement). *)
Definition to_int (z : Z) : Z :=
  if z <? 2 ^ 31 then z else z - modulus.

(** The three [int]s [main] computes once the trace is exhausted:
    [references], [misses] and [hits].  The sums are formed in
    [unsigned int] and converted on assignment; the difference is an [int]
    subtraction (wrapping where C leaves it undefined). *)
Definition statistics (c : cache) : Z * Z * Z :=
  let references :=
    to_int (wrap (wrap (instruction_reference_count (perf c)
                        + data_read_reference_count (perf c))
                  + data_write_reference_count (perf c))) in
  let misses :=
    to_int (wrap (wrap (instruction_miss_count (perf c)
                        + data_read_miss_count (perf c))
                  + data_write_miss_count (perf c))) in
  let hits := to_int (wrap (references - misses)) in
  (references, misses, hits).

(** Number of references of category [t] in a trace. *)
Definition references_of (t : REFERENCE_TYPE) (trace : list memory_reference)
    : Z :=
  Z.of_nat (length (List.filter (fun m => REFERENCE_TYPE_eqb t (type m)) trace)).

(** Number of references of a trace whose type is one of the enumerators. *)
Definition counted_references (trace : list memory_reference) : Z :=
  Z.of_nat (length (List.filter (fun m => counted (type m)) trace)).

(** ** Proof steps *)

(** Rewrites the two counters of the category in the goal with the effect
    [P] of a call. *)
Ltac counters_at P c1 :=
  match goal with
  | |- context [reference_count ?t (perf c1)] =>
      destruct (P t eq_refl) as [-> ->]
  end.

(** ** Facts on the bit loops *)

Lemma wrap_small z : uint z -> wrap z = z.
Proof. unfold uint, wrap. intros H. apply Z.mod_small. lia. Qed.

Lemma wrap_uint z : uint (wrap z).
Proof. unfold uint, wrap, modulus. apply Z.mod_pos_bound. lia. Qed.

Lemma land_1 n : Z.land n 1 = n mod 2.
Proof. change 1 with (Z.ones 1). rewrite Z.land_ones by lia. reflexivity. Qed.

Lemma shiftr_1 n : Z.shiftr n 1 = n / 2.
Proof. rewrite Z.shiftr_div_pow2 by lia. reflexivity. Qed.

(** The accumulator only shifts the result of the loop, as long as the count
    stays in range. *)
Lemma count_bits_acc fuel : forall n c,
  0 <= c -> c + Z.of_nat fuel < modulus ->
  count_bits fuel n c = c + count_bits fuel n 0 /\
  0 <= count_bits fuel n 0 <= Z.of_nat fuel.
Proof.
  induction fuel as [|fuel IH]; intros n c Hc Hb.
  - simpl. lia.
  - cbn [count_bits]. rewrite land_1, shiftr_1.
    assert (Hm : modulus = 4294967296) by reflexivity.
    destruct (n mod 2 =? 0).
    + destruct (IH (n / 2) c) as [E B]; [lia | lia |].
      rewrite E. lia.
    + rewrite !wrap_small by (unfold uint; lia).
      destruct (IH (n / 2) (c + 1)) as [E B]; [lia | lia |].
      destruct (IH (n / 2) (0 + 1)) as [E1 B1]; [lia | lia |].
      rewrite E, E1. lia.
Qed.

(** A single set bit is all the counting loop accepts. *)
Lemma count_bits_one fuel : forall n,
  (Z.of_nat fuel < modulus) ->
  (count_bits fuel n 0 = 0 -> n mod 2 ^ Z.of_nat fuel = 0) /\
  (count_bits fuel n 0 = 1 ->
   exists k, 0 <= k < Z.of_nat fuel /\ n mod 2 ^ Z.of_nat fuel = 2 ^ k).
Proof.
  induction fuel as [|fuel IH]; intros n Hf.
  - simpl. split.
    + intros _. apply Z.mod_1_r.
    + intros H. discriminate H.
  - assert (Hm : modulus = 4294967296) by reflexivity.
    assert (Hpow : 2 ^ Z.of_nat (S fuel) = 2 * 2 ^ Z.of_nat fuel).
    { rewrite Nat2Z.inj_succ, Z.pow_succ_r by lia. reflexivity. }
    assert (Hpos : 0 < 2 ^ Z.of_nat fuel) by (apply Z.pow_pos_nonneg; lia).
    assert (Hsplit : n mod (2 * 2 ^ Z.of_nat fuel)
                     = n mod 2 + 2 * ((n / 2) mod 2 ^ Z.of_nat fuel)).
    { rewrite Z.rem_mul_r by lia. reflexivity. }
    cbn [count_bits]. rewrite land_1, shiftr_1, Hpow, Hsplit.
    destruct (IH (n / 2)) as [IH0 IH1]; [lia|].
    pose proof (Z.mod_pos_bound n 2 ltac:(lia)) as Hbit.
    destruct (Z.eqb_spec (n mod 2) 0) as [E|E].
    + split.
      * intros H. rewrite (IH0 H). lia.
      * intros H. destruct (IH1 H) as (k & Hk & Ek).
        exists (k + 1). split; [lia|].
        rewrite Ek, E, Z.pow_add_r by lia. lia.
    + rewrite wrap_small by (unfold uint; lia).
      destruct (count_bits_acc fuel (n / 2) (0 + 1)) as [EA BA]; [lia|lia|].
      rewrite EA. split.
      * intros H. lia.
      * intros H. exists 0. split; [lia|].
        rewrite IH0 by lia. change (2 ^ 0) with 1. lia.
Qed.

Lemma pow2_table :
  forallb (fun k => is_power_of_two (2 ^ k) && (log_two (2 ^ k) =? k))
          (map Z.of_nat (seq 0 32)) = true.
Proof. vm_compute. reflexivity. Qed.

Lemma pow2_accepted k :
  0 <= k < 32 -> is_power_of_two (2 ^ k) = true /\ log_two (2 ^ k) = k.
Proof.
  intros Hk.
  pose proof pow2_table as T.
  rewrite forallb_forall in T.
  specialize (T k).
  assert (Hin : In k (map Z.of_nat (seq 0 32))).
  { apply in_map_iff. exists (Z.to_nat k). split; [lia|].
    apply in_seq. lia. }
  apply T in Hin. apply andb_true_iff in Hin as [H1 H2].
  split; [exact H1 | lia].
Qed.

Lemma is_power_of_two_eq n :
  is_power_of_two n = (count_bits int_bits n 0 =? 1).
Proof. reflexivity. Qed.

Lemma is_power_of_two_true n :
  uint n -> is_power_of_two n = true -> exists k, 0 <= k < 32 /\ n = 2 ^ k.
Proof.
  intros Hn H. rewrite is_power_of_two_eq in H.
  apply Z.eqb_eq in H.
  pose proof (count_bits_one int_bits n) as C.
  assert (E32 : Z.of_nat int_bits = 32) by reflexivity.
  rewrite E32 in C.
  destruct C as [_ H1]; [unfold modulus; lia|].
  destruct (H1 H) as (k & Hk & Ek).
  exists k. split; [exact Hk|].
  rewrite <- Ek. symmetry. apply Z.mod_small.
  unfold uint, modulus in Hn. exact Hn.
Qed.

Lemma is_power_of_two_spec n :
  uint n -> (is_power_of_two n = true <-> power_of_two n).
Proof.
  intros Hn. split.
  - intros H. destruct (is_power_of_two_true n Hn H) as (k & Hk & E).
    exists k. split; [lia | exact E].
  - intros (k & Hk & E). subst n.
    assert (k < 32).
    { destruct (Z_lt_le_dec k 32) as [L|G]; [exact L|].
      exfalso. destruct Hn as [_ Hn].
      pose proof (Z.pow_le_mono_r 2 32 k ltac:(lia) G) as P.
      unfold modulus in Hn. lia. }
    apply pow2_accepted. lia.
Qed.

(** ** create_cache_struct, analysed *)

Lemma divisor_multiple a k :
  0 <= k < 32 -> wrap (a * 2 ^ k) <> 0 -> 2 ^ k <= wrap (a * 2 ^ k).
Proof.
  intros Hk Hne. unfold wrap in *.
  assert (E : modulus = 2 ^ (32 - k) * 2 ^ k).
  { rewrite <- Z.pow_add_r by lia. unfold modulus. f_equal. lia. }
  rewrite E in *.
  assert (0 < 2 ^ k) by (apply Z.pow_pos_nonneg; lia).
  assert (0 < 2 ^ (32 - k)) by (apply Z.pow_pos_nonneg; lia).
  rewrite Z.mul_mod_distr_r in * by lia.
  pose proof (Z.mod_pos_bound a (2 ^ (32 - k)) ltac:(lia)) as B.
  destruct (Z.eq_dec (a mod 2 ^ (32 - k)) 0) as [Z0|NZ].
  - exfalso. apply Hne. rewrite Z0. apply Z.mul_0_l.
  - assert (1 <= a mod 2 ^ (32 - k)) by lia. nia.
Qed.

(** One-step unfoldings, stated so that they are checked by unfolding the
    left-hand side only. *)
Lemma create_cache_struct_eq dm heap sz assoc bs :
  create_cache_struct dm heap sz assoc bs
  = (if negb (is_power_of_two bs) then Returned None
     else
       let divisor := wrap (assoc * bs) in
       if divisor =? 0 then Crashed DivisionByZero
       else
         let number_of_sets := sz / divisor in
         if number_of_sets =? 0 then Returned None
         else if negb (is_power_of_two number_of_sets) then Returned None
         else
           Returned
             (Some (determine_address_widths dm
                      (mk_cache sz assoc number_of_sets bs
                         (mk_address_info 0 0 0 0)
                         (initial_blocks heap assoc number_of_sets)
                         zero_perf)))).
Proof. reflexivity. Qed.

Lemma determine_address_widths_eq dm c :
  determine_address_widths dm c
  = (let width := wrap (Z.shiftl (sizeof_void_ptr dm) 3) in
     let offset_width' := wrap (log_two (block_size c)) in
     let index_width' := wrap (log_two (number_of_sets c)) in
     let tag_width' := wrap (wrap (width - offset_width') - index_width') in
     let a0 := mk_address_info 0 0 0 0 in
     let a1 :=
       if offset_width' =? wrap (-1) then a0
       else mk_address_info (address_width a0) offset_width'
              (index_width a0) (tag_width a0) in
     let a2 :=
       if index_width' =? wrap (-1) then a1
       else mk_address_info (address_width a1) (offset_width a1)
              index_width' (tag_width a1) in
     let a3 :=
       if negb (offset_width' =? wrap (-1)) && negb (index_width' =? wrap (-1))
       then mk_address_info width (offset_width a2) (index_width a2) tag_width'
       else a2 in
     with_addr_info c a3).
Proof. reflexivity. Qed.

(** The widths computed for a block size [2^ow] and [2^iw] sets. *)
Lemma determine_address_widths_pow2 dm sz assoc ow iw bks p a :
  0 <= ow -> 0 <= iw -> ow + iw <= 31 ->
  determine_address_widths dm (mk_cache sz assoc (2 ^ iw) (2 ^ ow) a bks p)
  = mk_cache sz assoc (2 ^ iw) (2 ^ ow)
      (mk_address_info (8 * sizeof_void_ptr dm) ow iw
         (8 * sizeof_void_ptr dm - ow - iw)) bks p.
Proof.
  intros How Hiw Hsum.
  rewrite determine_address_widths_eq.
  cbn [size associativity number_of_sets block_size addr_info blocks perf].
  destruct (pow2_accepted ow ltac:(lia)) as [_ Eo].
  destruct (pow2_accepted iw ltac:(lia)) as [_ Ei].
  rewrite Eo, Ei.
  assert (Hm : modulus = 4294967296) by reflexivity.
  rewrite (wrap_small ow), (wrap_small iw) by (unfold uint; lia).
  assert (Hneg : wrap (-1) = 4294967295) by reflexivity.
  rewrite Hneg.
  assert (Hw : wrap (Z.shiftl (sizeof_void_ptr dm) 3) = 8 * sizeof_void_ptr dm)
    by (destruct dm; reflexivity).
  rewrite Hw.
  assert (Hp : 32 <= 8 * sizeof_void_ptr dm <= 64)
    by (destruct dm; cbn; lia).
  rewrite (wrap_small (8 * sizeof_void_ptr dm - ow)) by (unfold uint; lia).
  rewrite (wrap_small (8 * sizeof_void_ptr dm - ow - iw))
    by (unfold uint; lia).
  destruct (Z.eqb_spec ow 4294967295) as [|_]; [lia|].
  destruct (Z.eqb_spec iw 4294967295) as [|_]; [lia|].
  reflexivity.
Qed.

Lemma create_cache_struct_inv dm heap sz assoc bs c :
  uint sz -> uint assoc -> uint bs ->
  create_cache_struct dm heap sz assoc bs = Returned (Some c) ->
  exists ow iw,
    0 <= ow /\ 0 <= iw /\ ow + iw <= 31 /\
    bs = 2 ^ ow /\ wrap (assoc * bs) <> 0 /\ sz / wrap (assoc * bs) = 2 ^ iw /\
    c = mk_cache sz assoc (2 ^ iw) bs
          (mk_address_info (8 * sizeof_void_ptr dm) ow iw
             (8 * sizeof_void_ptr dm - ow - iw))
          (initial_blocks heap assoc (2 ^ iw)) zero_perf.
Proof.
  intros Hsz Hassoc Hbs H. rewrite create_cache_struct_eq in H.
  destruct (is_power_of_two bs) eqn:Pbs; [|discriminate H].
  cbv zeta in H. cbn [negb] in H.
  destruct (Z.eqb_spec (wrap (assoc * bs)) 0) as [|Hdiv]; [discriminate H|].
  destruct (Z.eqb_spec (sz / wrap (assoc * bs)) 0) as [|Hsets];
    [discriminate H|].
  destruct (is_power_of_two (sz / wrap (assoc * bs))) eqn:Psets;
    [|discriminate H]. cbn [negb] in H.
  pose proof (wrap_uint (assoc * bs)) as Hd.
  assert (Hq : uint (sz / wrap (assoc * bs))).
  { unfold uint in *. split.
    - apply Z.div_pos; lia.
    - apply Z.le_lt_trans with sz; [|lia].
      apply Z.div_le_upper_bound; nia. }
  destruct (is_power_of_two_true _ Hbs Pbs) as (ow & How & Eow).
  destruct (is_power_of_two_true _ Hq Psets) as (iw & Hiw & Eiw).
  exists ow, iw.
  assert (Hsum : ow + iw <= 31).
  { subst bs. pose proof (divisor_multiple assoc ow How Hdiv) as Hm.
    assert (Hmul : 2 ^ iw * wrap (assoc * 2 ^ ow) <= sz).
    { rewrite <- Eiw. rewrite Z.mul_comm. apply Z.mul_div_le. lia. }
    assert (0 < 2 ^ iw) by (apply Z.pow_pos_nonneg; lia).
    assert (Hlt : 2 ^ (ow + iw) < 2 ^ 32).
    { rewrite Z.pow_add_r by lia. unfold uint, modulus in Hsz. nia. }
    apply Z.pow_lt_mono_r_iff in Hlt; lia. }
  repeat (split; [first [lia | assumption]|]).
  injection H as <-.
  rewrite Eiw. rewrite Eow.
  apply determine_address_widths_pow2; lia.
Qed.

(** ** The block store *)

Section Store.

Implicit Types (c : cache) (row : list cache_block) (i j k : nat) (index : Z).

Lemma with_blocks_id c : with_blocks c (blocks c) = c.
Proof. destruct c; reflexivity. Qed.

Lemma get_block_row index i c row b :
  blocks c !! Z.to_nat index = Some row -> row !! i = Some b ->
  get_block index i c = Returned b.
Proof. intros Hr Hb. unfold get_block. rewrite Hr, Hb. reflexivity. Qed.

Lemma set_block_row index i b c row :
  blocks c !! Z.to_nat index = Some row ->
  set_block index i b c
  = with_blocks c (<[Z.to_nat index := <[i := b]> row]> (blocks c)).
Proof. intros Hr. unfold set_block. rewrite Hr. reflexivity. Qed.

Lemma lookup_insert_row (bs : list (list cache_block)) n row row' :
  bs !! n = Some row -> <[n := row']> bs !! n = Some row'.
Proof.
  intros H. apply list_lookup_insert_eq. eapply lookup_lt_Some. exact H.
Qed.

Lemma frame_outside_refl n c : frame_outside n c c.
Proof. unfold frame_outside. auto 10. Qed.

Lemma frame_outside_trans n c1 c2 c3 :
  frame_outside n c1 c2 -> frame_outside n c2 c3 -> frame_outside n c1 c3.
Proof.
  unfold frame_outside.
  intros (A1 & A2 & A3 & A4 & A5 & A6 & A7) (B1 & B2 & B3 & B4 & B5 & B6 & B7).
  repeat split; try congruence.
  intros j Hj. rewrite B7, A7 by exact Hj. reflexivity.
Qed.

Lemma set_block_frame index i b c :
  frame_outside (Z.to_nat index) c (set_block index i b c).
Proof.
  unfold set_block.
  destruct (blocks c !! Z.to_nat index) as [row|]; [|apply frame_outside_refl].
  unfold frame_outside. cbn. repeat split.
  intros j Hj. apply list_lookup_insert_ne. congruence.
Qed.

Lemma age_blocks_row fuel : forall i k index c row,
  blocks c !! Z.to_nat index = Some row ->
  (i + fuel <= length row)%nat ->
  exists row',
    age_blocks fuel i k index c
    = Returned (with_blocks c (<[Z.to_nat index := row']> (blocks c))) /\
    length row' = length row /\
    forall j, row' !! j
              = if decide (i <= j < i + fuel)%nat
                then age k j <$> row !! j else row !! j.
Proof.
  induction fuel as [|fuel IH]; intros i k index c row Hrow Hlen.
  - exists row. cbn [age_blocks]. split; [|split].
    + rewrite list_insert_id by exact Hrow. rewrite with_blocks_id. reflexivity.
    + reflexivity.
    + intros j. destruct (decide _) as [D|D]; [lia|reflexivity].
  - destruct (lookup_lt_is_Some_2 row i ltac:(lia)) as [b Hb].
    cbn [age_blocks]. rewrite (get_block_row _ _ _ _ _ Hrow Hb). cbn [bind].
    rewrite (set_block_row _ _ _ _ _ Hrow).
    set (b2 := if negb (Nat.eqb i k) then _ else _).
    assert (Eb2 : b2 = age k i b).
    { unfold b2, age. destruct (Nat.eqb i k); reflexivity. }
    clearbody b2. subst b2.
    set (c1 := with_blocks c _).
    assert (Hrow1 : blocks c1 !! Z.to_nat index = Some (<[i := age k i b]> row)).
    { unfold c1. cbn. eapply lookup_insert_row. exact Hrow. }
    destruct (IH (S i) k index c1 _ Hrow1) as (row' & E & L & P).
    { rewrite length_insert. lia. }
    exists row'. split; [|split].
    + rewrite E. unfold c1. cbn [blocks with_blocks].
      rewrite list_insert_insert_eq. reflexivity.
    + rewrite L. apply length_insert.
    + intros j. rewrite P.
      destruct (decide (j = i)) as [->|Hne].
      * rewrite list_lookup_insert_eq by lia. rewrite Hb.
        destruct (decide _) as [D|D]; [lia|].
        destruct (decide _) as [D'|D']; [reflexivity|lia].
      * rewrite list_lookup_insert_ne by congruence.
        destruct (decide _) as [D|D]; destruct (decide _) as [D'|D'];
          try reflexivity; lia.
Qed.

Lemma age_blocks_age_row k index c row :
  blocks c !! Z.to_nat index = Some row ->
  age_blocks (length row) 0 k index c
  = Returned (with_blocks c (<[Z.to_nat index := age_row k row]> (blocks c))).
Proof.
  intros Hrow.
  destruct (age_blocks_row (length row) 0 k index c row Hrow) as (row' & E & L & P);
    [lia|].
  rewrite E. do 3 f_equal. apply list_eq. intros j.
  unfold age_row. rewrite list_lookup_imap, P.
  destruct (decide _) as [D|D]; [reflexivity|].
  rewrite (lookup_ge_None_2 row j) by lia. reflexivity.
Qed.

Lemma age_blocks_frame fuel : forall i k index c c',
  age_blocks fuel i k index c = Returned c' ->
  frame_outside (Z.to_nat index) c c'.
Proof.
  induction fuel as [|fuel IH]; intros i k index c c' H.
  - cbn in H. injection H as <-. apply frame_outside_refl.
  - cbn [age_blocks] in H.
    destruct (get_block index i c) as [b| |]; cbn [bind] in H; try discriminate H.
    eapply frame_outside_trans; [apply set_block_frame|].
    eapply IH. exact H.
Qed.

End Store.

(** ** The scans: is_miss and the first loop of update_lru_info *)

Section Scans.

Implicit Types (c : cache) (row : list cache_block) (i j k : nat) (index : Z).

Lemma is_miss_loop_row fuel : forall i tg index c row,
  blocks c !! Z.to_nat index = Some row ->
  (i + fuel <= length row)%nat ->
  exists r,
    is_miss_loop fuel i tg index c = Returned r /\
    (r = false <->
     exists j b, (i <= j < i + fuel)%nat /\ row !! j = Some b /\
                 matches tg b = true).
Proof.
  induction fuel as [|fuel IH]; intros i tg index c row Hrow Hlen.
  - exists true. split; [reflexivity|]. split; [discriminate|].
    intros (j & b & Hj & _). lia.
  - destruct (lookup_lt_is_Some_2 row i ltac:(lia)) as [b Hb].
    cbn [is_miss_loop]. rewrite (get_block_row _ _ _ _ _ Hrow Hb). cbn [bind].
    fold (matches tg b).
    destruct (matches tg b) eqn:M.
    + exists false. split; [reflexivity|]. split; [|reflexivity].
      intros _. exists i, b. split; [lia|]. split; assumption.
    + destruct (IH (S i) tg index c row Hrow ltac:(lia)) as (r & E & R).
      exists r. split; [exact E|]. rewrite R. split.
      * intros (j & b' & Hj & Hb' & M'). exists j, b'. split; [lia|].
        split; assumption.
      * intros (j & b' & Hj & Hb' & M').
        destruct (decide (j = i)) as [->|Hne].
        -- congruence.
        -- exists j, b'. split; [lia|]. split; assumption.
Qed.

Lemma is_miss_row tg index c row :
  blocks c !! Z.to_nat index = Some row ->
  length row = Z.to_nat (associativity c) ->
  exists r,
    is_miss tg index c = Returned r /\
    (r = false <->
     exists j b, row !! j = Some b /\ matches tg b = true).
Proof.
  intros Hrow Hlen. unfold is_miss, get_set. rewrite Hrow. cbn [bind].
  destruct (is_miss_loop_row (Z.to_nat (associativity c)) 0 tg index c row Hrow)
    as (r & E & R); [lia|].
  exists r. split; [exact E|]. rewrite R. split.
  - intros (j & b & _ & Hb & M). eauto.
  - intros (j & b & Hb & M). exists j, b. split; [|split; assumption].
    apply lookup_lt_Some in Hb. lia.
Qed.

(** The first loop of [update_lru_info] always runs to an answer on an
    allocated row. *)
Lemma find_block_row fuel : forall i k0 tg index c row,
  blocks c !! Z.to_nat index = Some row ->
  (i + fuel <= length row)%nat ->
  exists r, find_block fuel i k0 tg index c = Returned r.
Proof.
  induction fuel as [|fuel IH]; intros i k0 tg index c row Hrow Hlen.
  - eexists. reflexivity.
  - destruct (lookup_lt_is_Some_2 row i ltac:(lia)) as [b Hb].
    cbn [find_block]. rewrite (get_block_row _ _ _ _ _ Hrow Hb). cbn [bind].
    destruct (valid b && (tag b =? tg)).
    + destruct (lru_value b =? 0); [eexists; reflexivity|].
      apply (IH (S i) i tg index c row Hrow). lia.
    + apply (IH (S i) k0 tg index c row Hrow). lia.
Qed.

(** With a single valid block [k] carrying the tag, the loop returns early
    if that block is the most recently used and otherwise ends with
    [block_index = k]. *)
Lemma find_block_unique fuel : forall i k0 tg index c row k b,
  blocks c !! Z.to_nat index = Some row ->
  (i + fuel = length row)%nat ->
  row !! k = Some b -> valid b = true -> tag b = tg ->
  (forall j b', row !! j = Some b' -> valid b' = true -> tag b' = tg -> j = k) ->
  ((k < i)%nat -> k0 = k /\ lru_value b <> 0) ->
  find_block fuel i k0 tg index c
  = Returned (if lru_value b =? 0 then None else Some k).
Proof.
  induction fuel as [|fuel IH]; intros i k0 tg index c row k b Hrow Hlen Hk V T U P.
  - cbn [find_block]. apply lookup_lt_Some in Hk.
    destruct P as [-> Hl]; [lia|].
    destruct (Z.eqb_spec (lru_value b) 0); [contradiction|reflexivity].
  - destruct (lookup_lt_is_Some_2 row i ltac:(lia)) as [bi Hbi].
    cbn [find_block]. rewrite (get_block_row _ _ _ _ _ Hrow Hbi). cbn [bind].
    destruct (valid bi && (tag bi =? tg)) eqn:M.
    + apply andb_true_iff in M as [Vi Ti]. apply Z.eqb_eq in Ti.
      assert (i = k) by (eapply U; eassumption). subst i.
      assert (bi = b) by congruence. subst bi.
      destruct (Z.eqb_spec (lru_value b) 0) as [E|E]; [reflexivity|].
      rewrite (IH (S k) k tg index c row k b Hrow ltac:(lia) Hk V T U).
      * destruct (Z.eqb_spec (lru_value b) 0); [contradiction|reflexivity].
      * intros _. split; [reflexivity|exact E].
    + apply (IH (S i) k0 tg index c row k b Hrow ltac:(lia) Hk V T U).
      intros Hlt.
      destruct (decide (k = i)) as [->|Hne].
      * exfalso. assert (bi = b) by congruence. subst bi.
        rewrite V, T, Z.eqb_refl in M. discriminate M.
      * apply P. lia.
Qed.

(** On an allocated row [update_lru_info] returns, and what it returns
    differs from the cache it was given at most in the recency of the blocks
    of that row. *)
Lemma update_lru_info_row tg index c row :
  blocks c !! Z.to_nat index = Some row ->
  length row = Z.to_nat (associativity c) ->
  exists row',
    update_lru_info tg index c
    = Returned (with_blocks c (<[Z.to_nat index := row']> (blocks c))) /\
    length row' = length row /\
    forall j b, row !! j = Some b ->
      exists b', row' !! j = Some b' /\
        valid b' = valid b /\ dirty b' = dirty b /\ tag b' = tag b.
Proof.
  intros Hrow Hlen. unfold update_lru_info.
  destruct (find_block_row (Z.to_nat (associativity c)) 0 0 tg index c row Hrow)
    as ([k|] & E); [lia| |]; rewrite E; cbn [bind].
  - rewrite <- Hlen. rewrite (age_blocks_age_row k index c row Hrow).
    exists (age_row k row). split; [reflexivity|]. split.
    + unfold age_row. apply length_imap.
    + intros j b Hb. unfold age_row. rewrite list_lookup_imap, Hb. cbn.
      eexists. split; [reflexivity|].
      unfold age. destruct (Nat.eqb j k); cbn; auto.
  - exists row. split; [|split].
    + rewrite list_insert_id by exact Hrow. rewrite with_blocks_id. reflexivity.
    + reflexivity.
    + intros j b Hb. exists b. auto.
Qed.

Lemma update_lru_info_frame tg index c c' :
  update_lru_info tg index c = Returned c' ->
  frame_outside (Z.to_nat index) c c'.
Proof.
  unfold update_lru_info. intros H.
  destruct (find_block _ _ _ _ _ _) as [[k|]| |]; cbn [bind] in H;
    try discriminate H.
  - eapply age_blocks_frame. exact H.
  - injection H as <-. apply frame_outside_refl.
Qed.

End Scans.

(** ** Well-formed caches *)

Section WellFormed.

Implicit Types (c : cache) (row : list cache_block) (i j k : nat) (index : Z).

Lemma land_mask_bound x m : 0 <= m -> 0 <= Z.land x m <= m.
Proof.
  intros Hm. split.
  - apply Z.land_nonneg. right. exact Hm.
  - assert (E : Z.ldiff (Z.land x m) m = 0).
    { apply Z.bits_inj'. intros n Hn.
      rewrite Z.ldiff_spec, Z.land_spec, Z.bits_0.
      destruct (Z.testbit x n), (Z.testbit m n); reflexivity. }
    apply Z.sub_nocarry_ldiff in E.
    assert (0 <= Z.ldiff m (Z.land x m)) by (apply Z.ldiff_nonneg; left; exact Hm).
    lia.
Qed.

Lemma wf_cache_unpack c :
  wf_cache c = true <->
  length (blocks c) = Z.to_nat (number_of_sets c) /\
  (forall n row, blocks c !! n = Some row ->
                 length row = Z.to_nat (associativity c)) /\
  wrap (Z.shiftl 1 (index_width (addr_info c)) - 1) < number_of_sets c.
Proof.
  unfold wf_cache. rewrite !andb_true_iff, Nat.eqb_eq, Z.ltb_lt, forallb_forall.
  split; intros ((A & B) & C) || intros (A & B & C); repeat split; try assumption.
  - intros n row Hrow. apply Nat.eqb_eq. apply B.
    apply list_elem_of_In. eapply list_elem_of_lookup_2. exact Hrow.
  - intros row Hin. apply Nat.eqb_eq.
    apply list_elem_of_In, list_elem_of_lookup_1 in Hin as [n Hn].
    eapply B. exact Hn.
Qed.

(** The decoded index always selects an allocated row. *)
Lemma wf_cache_row c a :
  wf_cache c = true ->
  exists row,
    blocks c !! Z.to_nat (get_index_from_address a c) = Some row /\
    length row = Z.to_nat (associativity c).
Proof.
  intros W. apply wf_cache_unpack in W as (L & R & M).
  unfold get_index_from_address.
  set (mask := wrap _) in *.
  assert (0 <= mask) by apply wrap_uint.
  pose proof (land_mask_bound (Z.shiftr a (offset_width (addr_info c))) mask
                ltac:(assumption)) as B.
  destruct (lookup_lt_is_Some_2 (blocks c)
              (Z.to_nat (Z.land (Z.shiftr a (offset_width (addr_info c))) mask)))
    as [row Hrow]; [lia|].
  exists row. split; [exact Hrow|]. eapply R. exact Hrow.
Qed.

Lemma wf_cache_replace c n row row' p :
  wf_cache c = true ->
  blocks c !! n = Some row -> length row' = length row ->
  wf_cache (with_perf (with_blocks c (<[n := row']> (blocks c))) p) = true.
Proof.
  intros W Hrow Hlen. apply wf_cache_unpack.
  apply wf_cache_unpack in W as (L & R & M). cbn.
  split; [|split].
  - rewrite length_insert. exact L.
  - intros n' r Hr.
    destruct (decide (n' = n)) as [->|Hne].
    + rewrite (lookup_insert_row _ _ _ _ Hrow) in Hr. injection Hr as <-.
      rewrite Hlen. eapply R. exact Hrow.
    + rewrite list_lookup_insert_ne in Hr by congruence. eapply R. exact Hr.
  - exact M.
Qed.

End WellFormed.

(** ** handle_miss and do_reference *)

Section Reference.

Implicit Types (c : cache) (row : list cache_block) (i j k : nat) (index : Z).

Lemma handle_miss_exits tg index write c :
  associativity c <> 1 -> handle_miss tg index write c = Exited 1.
Proof.
  intros H. unfold handle_miss.
  destruct (Z.eqb_spec (associativity c) 1); [contradiction|reflexivity].
Qed.

Lemma singleton_row row : length row = 1%nat -> exists b, row = [b].
Proof.
  destruct row as [|b [|b' rest]]; cbn; intros H; try discriminate H.
  exists b. reflexivity.
Qed.

Lemma handle_miss_direct_mapped tg index write c b :
  associativity c = 1 ->
  blocks c !! Z.to_nat index = Some [b] ->
  handle_miss tg index write c
  = Returned (with_blocks c
                (<[Z.to_nat index := [mk_cache_block true write (lru_value b) tg]]>
                   (blocks c))).
Proof.
  intros A Hrow. unfold handle_miss. rewrite A. cbn [Z.eqb Pos.eqb negb].
  rewrite (get_block_row index 0 c [b] b Hrow eq_refl). cbn [bind].
  rewrite (set_block_row _ _ _ _ _ Hrow). reflexivity.
Qed.

Lemma handle_miss_frame tg index write c c' :
  handle_miss tg index write c = Returned c' ->
  frame_outside (Z.to_nat index) c c'.
Proof.
  unfold handle_miss. intros H.
  destruct (negb _); [discriminate H|].
  destruct (get_block index 0 c) as [b| |]; cbn [bind] in H; try discriminate H.
  injection H as <-. apply set_block_frame.
Qed.

(** The touch step, for a set in which block [k] is the only valid block
    carrying the tag. *)
Lemma update_lru_info_touch tg index c row k b :
  blocks c !! Z.to_nat index = Some row ->
  length row = Z.to_nat (associativity c) ->
  row !! k = Some b -> valid b = true -> tag b = tg ->
  (forall j b', row !! j = Some b' -> valid b' = true -> tag b' = tg -> j = k) ->
  update_lru_info tg index c
  = Returned (if lru_value b =? 0 then c
              else with_blocks c
                     (<[Z.to_nat index := age_row k row]> (blocks c))).
Proof.
  intros Hrow Hlen Hk V T U. unfold update_lru_info.
  rewrite (find_block_unique (Z.to_nat (associativity c)) 0 0 tg index c row k b
             Hrow ltac:(lia) Hk V T U) by lia.
  destruct (lru_value b =? 0); cbn [bind]; [reflexivity|].
  rewrite <- Hlen. apply age_blocks_age_row. exact Hrow.
Qed.

(** Where no increment wraps, the second loop is the touch step of the
    description. *)
Lemma age_row_touch_row k row :
  (forall j b, row !! j = Some b -> j <> k -> uint (lru_value b + 1)) ->
  age_row k row = Spec.touch_row k row.
Proof.
  intros H. unfold age_row, Spec.touch_row. apply imap_ext.
  intros j b Hb. unfold age.
  destruct (Nat.eqb_spec j k) as [|Hne]; [reflexivity|].
  rewrite wrap_small by (eapply H; eassumption). reflexivity.
Qed.

(** What every returning call of [do_reference] does to the counters and
    leaves alone in the cache. *)
Lemma do_reference_frame m c c' :
  do_reference m c = Returned c' ->
  exists miss,
    is_miss (get_tag_from_address (address m) c)
            (get_index_from_address (address m) c) c = Returned miss /\
    perf c' = count_reference (type m)
                (if miss then count_miss (type m) (perf c) else perf c) /\
    size c' = size c /\ associativity c' = associativity c /\
    number_of_sets c' = number_of_sets c /\ block_size c' = block_size c /\
    addr_info c' = addr_info c /\
    forall j, j <> Z.to_nat (get_index_from_address (address m) c) ->
              blocks c' !! j = blocks c !! j.
Proof.
  unfold do_reference. intros H.
  destruct (is_miss _ _ c) as [miss| |]; cbn [bind] in H; try discriminate H.
  exists miss. split; [reflexivity|].
  destruct miss.
  - destruct (handle_miss _ _ _ c) as [c1| |] eqn:HM; cbn [bind] in H;
      try discriminate H.
    apply handle_miss_frame in HM as (A1 & A2 & A3 & A4 & A5 & A6 & A7).
    destruct (update_lru_info _ _ _) as [c2| |] eqn:HU; cbn [bind] in H;
      try discriminate H.
    apply update_lru_info_frame in HU as (B1 & B2 & B3 & B4 & B5 & B6 & B7).
    cbn in B1, B2, B3, B4, B5, B6, B7.
    injection H as <-. cbn.
    repeat split; try congruence.
    intros j Hj. rewrite B7, A7 by exact Hj. reflexivity.
  - cbn [bind] in H.
    destruct (update_lru_info _ _ _) as [c2| |] eqn:HU; cbn [bind] in H;
      try discriminate H.
    apply update_lru_info_frame in HU as (B1 & B2 & B3 & B4 & B5 & B6 & B7).
    injection H as <-. cbn.
    repeat split; try congruence. exact B7.
Qed.

End Reference.

(** ** One reference on a well-formed cache *)

Section Step.

Implicit Types (c : cache) (row : list cache_block) (i j k : nat) (index : Z).

Lemma do_reference_hit m c row :
  let tg := get_tag_from_address (address m) c in
  let index := get_index_from_address (address m) c in
  blocks c !! Z.to_nat index = Some row ->
  length row = Z.to_nat (associativity c) ->
  is_miss tg index c = Returned false ->
  exists row',
    do_reference m c
    = Returned (with_perf
                  (with_blocks c (<[Z.to_nat index := row']> (blocks c)))
                  (count_reference (type m) (perf c))) /\
    length row' = length row /\
    forall j b, row !! j = Some b ->
      exists b', row' !! j = Some b' /\
        valid b' = valid b /\ dirty b' = dirty b /\ tag b' = tag b.
Proof.
  intros tg index Hrow Hlen Hmiss.
  destruct (update_lru_info_row tg index c row Hrow Hlen) as (row' & E & L & P).
  exists row'. split; [|split; assumption].
  unfold do_reference. fold tg index. rewrite Hmiss. cbn [bind].
  rewrite E. reflexivity.
Qed.

Lemma do_reference_exits m c :
  wf_cache c = true -> associativity c <> 1 ->
  is_miss (get_tag_from_address (address m) c)
          (get_index_from_address (address m) c) c = Returned true ->
  do_reference m c = Exited 1.
Proof.
  intros W A Hmiss. unfold do_reference. rewrite Hmiss. cbn [bind].
  rewrite handle_miss_exits by exact A. reflexivity.
Qed.

(** A direct-mapped cache: the reference always returns, and the single
    block of the indexed set ends up valid, carrying the tag, with
    recency 0. *)
Lemma do_reference_direct_mapped m c :
  let tg := get_tag_from_address (address m) c in
  let index := get_index_from_address (address m) c in
  wf_cache c = true -> associativity c = 1 ->
  exists miss b b',
    blocks c !! Z.to_nat index = Some [b] /\
    is_miss tg index c = Returned miss /\
    (miss = negb (matches tg b)) /\
    b' = (if miss
          then mk_cache_block true
                 (match type m with DATA_WRITE => true | _ => false end) 0 tg
          else with_lru_value b 0) /\
    do_reference m c
    = Returned (with_perf
                  (with_blocks c (<[Z.to_nat index := [b']]> (blocks c)))
                  (count_reference (type m)
                     (if miss then count_miss (type m) (perf c) else perf c))).
Proof.
  intros tg index W A.
  destruct (wf_cache_row c (address m) W) as (row & Hrow & Hlen).
  fold index in Hrow.
  destruct (singleton_row row) as [b ->]; [rewrite Hlen, A; reflexivity|].
  destruct (is_miss_row tg index c [b] Hrow Hlen) as (miss & Emiss & R).
  assert (Hm : miss = negb (matches tg b)).
  { destruct miss, (matches tg b) eqn:M; try reflexivity.
    - destruct R as [_ R]. discriminate R. exists 0%nat, b. auto.
    - destruct R as [R _]. destruct (R eq_refl) as ([|j] & b0 & Hb0 & M0).
      + cbn in Hb0. congruence.
      + cbn in Hb0. discriminate Hb0. }
  exists miss, b. eexists. split; [exact Hrow|]. split; [exact Emiss|].
  split; [exact Hm|]. split; [reflexivity|].
  unfold do_reference. fold tg index. rewrite Emiss. cbn [bind].
  destruct miss.
  - rewrite (handle_miss_direct_mapped tg index _ c b A Hrow). cbn [bind].
    set (b1 := mk_cache_block true _ (lru_value b) tg).
    set (c1 := with_perf _ _).
    assert (Hrow1 : blocks c1 !! Z.to_nat index = Some [b1]).
    { unfold c1. cbn. eapply lookup_insert_row. exact Hrow. }
    rewrite (update_lru_info_touch tg index c1 [b1] 0 b1 Hrow1).
    + cbn [bind]. unfold c1, b1. cbn [lru_value].
      destruct (Z.eqb_spec (lru_value b) 0) as [E|E].
      * rewrite E. reflexivity.
      * cbn. rewrite list_insert_insert_eq. reflexivity.
    + unfold c1. cbn. rewrite A. reflexivity.
    + reflexivity.
    + reflexivity.
    + reflexivity.
    + intros [|j] b' Hb' _ _; [reflexivity|discriminate Hb'].
  - assert (M : matches tg b = true) by (destruct (matches tg b); [reflexivity|discriminate Hm]).
    unfold matches in M. apply andb_true_iff in M as [T V]. apply Z.eqb_eq in T.
    cbn [bind].
    rewrite (update_lru_info_touch tg index c [b] 0 b Hrow Hlen eq_refl V T).
    + cbn [bind].
      destruct (Z.eqb_spec (lru_value b) 0) as [E|E].
      * do 3 f_equal. symmetry.
        replace (with_lru_value b 0) with b
          by (destruct b; cbn in *; subst; reflexivity).
        rewrite list_insert_id by exact Hrow. apply with_blocks_id.
      * reflexivity.
    + intros [|j] b' Hb' _ _; [reflexivity|discriminate Hb'].
Qed.

(** On a well-formed cache a reference either returns or, when it misses in
    a cache that is not direct-mapped, ends the process with status 1. *)
Lemma do_reference_defined m c :
  wf_cache c = true ->
  (exists c', do_reference m c = Returned c') \/
  (associativity c <> 1 /\ do_reference m c = Exited 1).
Proof.
  intros W.
  destruct (Z.eq_dec (associativity c) 1) as [A|A].
  - left.
    destruct (do_reference_direct_mapped m c W A)
      as (miss & b & b' & _ & _ & _ & _ & E).
    eexists. exact E.
  - destruct (wf_cache_row c (address m) W) as (row & Hrow & Hlen).
    destruct (is_miss_row (get_tag_from_address (address m) c) _ c row Hrow Hlen)
      as ([|] & E & _).
    + right. split; [exact A|]. apply do_reference_exits; assumption.
    + left. destruct (do_reference_hit m c row Hrow Hlen E) as (row' & E' & _).
      eexists. exact E'.
Qed.

End Step.

(** ** Caches the program can hold *)

Section Reachable.

Implicit Types (c : cache) (row : list cache_block) (i j k : nat) (index : Z).

Lemma initial_blocks_row heap assoc sets n row :
  initial_blocks heap assoc sets !! n = Some row ->
  length row = Z.to_nat assoc /\
  forall k b, row !! k = Some b -> valid b = false.
Proof.
  intros H. apply list_elem_of_lookup_2, list_elem_of_In in H.
  unfold initial_blocks in H. apply in_map_iff in H as (i & <- & _).
  split.
  - rewrite length_map, length_seq. reflexivity.
  - intros k b Hb. apply list_elem_of_lookup_2, list_elem_of_In in Hb.
    apply in_map_iff in Hb as (j & <- & _). reflexivity.
Qed.

Lemma created_consistent dm heap sz assoc bs c :
  uint sz -> uint assoc -> uint bs ->
  create_cache_struct dm heap sz assoc bs = Returned (Some c) ->
  consistent c /\ all_invalid c.
Proof.
  intros Hsz Hassoc Hbs H.
  destruct (create_cache_struct_inv dm heap sz assoc bs c Hsz Hassoc Hbs H)
    as (ow & iw & How & Hiw & Hsum & Ebs & Hdiv & Esets & ->).
  assert (AI : all_invalid
                 (mk_cache sz assoc (2 ^ iw) bs
                    (mk_address_info (8 * sizeof_void_ptr dm) ow iw
                       (8 * sizeof_void_ptr dm - ow - iw))
                    (initial_blocks heap assoc (2 ^ iw)) zero_perf)).
  { intros n row k b Hrow Hb. cbn in Hrow.
    apply initial_blocks_row in Hrow as [_ V]. eapply V. exact Hb. }
  split; [|exact AI].
  split; [|split].
  - apply wf_cache_unpack. cbn. split; [|split].
    + unfold initial_blocks. rewrite length_map, length_seq. reflexivity.
    + intros n row Hrow. apply initial_blocks_row in Hrow as [L _]. exact L.
    + rewrite Z.shiftl_1_l.
      assert (0 < 2 ^ iw) by (apply Z.pow_pos_nonneg; lia).
      assert (2 ^ iw < 2 ^ 32) by (apply Z.pow_lt_mono_r; lia).
      rewrite wrap_small by (unfold uint, modulus; lia). lia.
  - intros _. exact AI.
  - intros n row k b Hrow Hb V. rewrite (AI n row k b Hrow Hb) in V.
    discriminate V.
Qed.

Lemma all_invalid_miss m c :
  wf_cache c = true -> all_invalid c ->
  is_miss (get_tag_from_address (address m) c)
          (get_index_from_address (address m) c) c = Returned true.
Proof.
  intros W AI.
  destruct (wf_cache_row c (address m) W) as (row & Hrow & Hlen).
  destruct (is_miss_row (get_tag_from_address (address m) c) _ c row Hrow Hlen)
    as (r & E & R).
  rewrite E. destruct r; [reflexivity|].
  destruct R as [R _]. destruct (R eq_refl) as (j & b & Hb & M).
  unfold matches in M. apply andb_true_iff in M as [_ V].
  rewrite (AI _ _ _ _ Hrow Hb) in V. discriminate V.
Qed.

Lemma consistent_step m c c' :
  consistent c -> do_reference m c = Returned c' ->
  associativity c = 1 /\ consistent c'.
Proof.
  intros (W & AI & MRU) H.
  destruct (Z.eq_dec (associativity c) 1) as [A|A].
  - split; [exact A|].
    destruct (do_reference_direct_mapped m c W A)
      as (miss & b & b' & Hrow & Emiss & Hm & Eb' & E).
    rewrite E in H. injection H as <-.
    split; [|split].
    + eapply wf_cache_replace; [exact W|exact Hrow|reflexivity].
    + intros NA. cbn in NA. contradiction.
    + intros n row k b0 Hr Hb0 V. cbn in Hr.
      destruct (decide (n = Z.to_nat (get_index_from_address (address m) c)))
        as [->|Hne].
      * rewrite (lookup_insert_row _ _ _ _ Hrow) in Hr. injection Hr as <-.
        destruct k as [|k]; [|discriminate Hb0].
        cbn in Hb0. injection Hb0 as <-.
        rewrite Eb'. destruct miss; reflexivity.
      * rewrite list_lookup_insert_ne in Hr by congruence.
        eapply MRU; eassumption.
  - exfalso.
    rewrite (do_reference_exits m c W A) in H; [discriminate H|].
    apply all_invalid_miss; [exact W|apply AI; exact A].
Qed.

Lemma reachable_consistent dm c : reachable dm c -> consistent c.
Proof.
  induction 1 as [heap sz assoc bs c Hsz Hassoc Hbs H | c m c' _ IH _ H].
  - exact (proj1 (created_consistent dm heap sz assoc bs c Hsz Hassoc Hbs H)).
  - exact (proj2 (consistent_step m c c' IH H)).
Qed.

(** A set with a valid block in a consistent cache is a single block with
    recency 0. *)
Lemma consistent_mru c n row k b :
  consistent c -> blocks c !! n = Some row -> row !! k = Some b ->
  valid b = true ->
  associativity c = 1 /\ row = [b] /\ lru_value b = 0.
Proof.
  intros (W & AI & MRU) Hrow Hb V.
  destruct (Z.eq_dec (associativity c) 1) as [A|A].
  - split; [exact A|].
    apply wf_cache_unpack in W as (_ & R & _).
    destruct (singleton_row row) as [b0 ->].
    { rewrite (R _ _ Hrow), A. reflexivity. }
    destruct k as [|k]; [|discriminate Hb].
    cbn in Hb. injection Hb as ->.
    split; [reflexivity|]. eapply (MRU n [b] 0%nat b); [exact Hrow|reflexivity|exact V].
  - rewrite (AI A _ _ _ _ Hrow Hb) in V. discriminate V.
Qed.

End Reachable.

(** ** The concrete caches are what the code builds *)

Lemma direct_mapped_created :
  create_cache_struct ILP32 stale_heap 4 1 1 = Returned (Some direct_mapped).
Proof. vm_compute. reflexivity. Qed.

Lemma two_way_created :
  create_cache_struct ILP32 stale_heap 4 2 1 = Returned (Some two_way).
Proof. vm_compute. reflexivity. Qed.

Lemma direct_mapped_reachable : reachable ILP32 direct_mapped.
Proof.
  eapply (reachable_create ILP32 stale_heap 4 1 1);
    [unfold uint, modulus; lia ..|exact direct_mapped_created].
Qed.

(** ** The scenarios of the description, run on the code *)

(** Size 1024, associativity 1, block size 32: fetches at 0x00, 0x20 and
    0x00 again make 2 misses and 1 hit. *)
Example end_to_end_scenario :
  exists c c',
    create_cache_struct ILP32 stale_heap 1024 1 32 = Returned (Some c) /\
    number_of_sets c = 32 /\
    do_references [mk_memory_reference 0 INSTRUCTION;
                   mk_memory_reference 32 INSTRUCTION;
                   mk_memory_reference 0 INSTRUCTION] c = Returned c' /\
    perf c' = mk_cache_perf 3 2 0 0 0 0.
Proof.
  eexists. eexists. split; [vm_compute; reflexivity|].
  split; [reflexivity|]. split; [vm_compute; reflexivity|reflexivity].
Qed.

(** Size 4, associativity 1, block size 1: addresses 0, 1, 2, 3 go to four
    different sets and all miss on a cold cache; address 0 then hits. *)
Example cold_cache_scenario :
  map (fun a => get_index_from_address a direct_mapped) [0; 1; 2; 3]
  = [0; 1; 2; 3] /\
  exists c',
    do_references (map (fun a => mk_memory_reference a DATA_READ)
                       [0; 1; 2; 3; 0]) direct_mapped = Returned c' /\
    perf c' = mk_cache_perf 0 0 5 4 0 0.
Proof.
  split; [reflexivity|].
  eexists. split; [vm_compute; reflexivity|reflexivity].
Qed.

(** The same address twice in a row: whatever the first access did, the
    second one hits. *)
Lemma second_access_hits dm c m c' :
  reachable dm c -> do_reference m c = Returned c' ->
  is_miss (get_tag_from_address (address m) c')
          (get_index_from_address (address m) c') c' = Returned false.
Proof.
  intros R H. pose proof (reachable_consistent dm c R) as Cn.
  destruct (consistent_step m c c' Cn H) as [A _].
  destruct Cn as (W & _).
  destruct (do_reference_direct_mapped m c W A)
    as (miss & b & b' & Hrow & Emiss & Hm & Eb' & E).
  rewrite E in H. injection H as <-.
  set (c2 := with_perf _ _).
  assert (Et : get_tag_from_address (address m) c2
               = get_tag_from_address (address m) c) by reflexivity.
  assert (Ei : get_index_from_address (address m) c2
               = get_index_from_address (address m) c) by reflexivity.
  rewrite Et, Ei.
  assert (Hrow2 : blocks c2 !! Z.to_nat (get_index_from_address (address m) c)
                  = Some [b']).
  { unfold c2. cbn. eapply lookup_insert_row. exact Hrow. }
  destruct (is_miss_row (get_tag_from_address (address m) c) _ c2 [b'] Hrow2)
    as (r & Er & Rr).
  { unfold c2. cbn. rewrite A. reflexivity. }
  rewrite Er. f_equal. apply Rr. exists 0%nat, b'. split; [reflexivity|].
  rewrite Eb'. destruct miss.
  - unfold matches. cbn. rewrite Z.eqb_refl. reflexivity.
  - destruct (matches (get_tag_from_address (address m) c) b) eqn:M;
      [exact M|discriminate Hm].
Qed.

(** ** The replacement contract of the description, examined *)

Lemma lru_victim_from_spec rest : forall i best best_lru,
  let v := Spec.lru_victim_from rest i best best_lru in
  (v = best /\ forall j b, rest !! j = Some b -> lru_value b <= best_lru) \/
  (exists j bv, v = (i + j)%nat /\ rest !! j = Some bv /\
     best_lru < lru_value bv /\
     forall j' b, rest !! j' = Some b ->
       lru_value b <= lru_value bv /\
       ((j' < j)%nat -> lru_value b < lru_value bv)).
Proof.
  induction rest as [|b rest IH]; intros i best best_lru; cbn zeta.
  - left. split; [reflexivity|]. intros j b' H. discriminate H.
  - cbn [Spec.lru_victim_from].
    destruct (Z.ltb_spec best_lru (lru_value b)) as [Hlt|Hge].
    + destruct (IH (S i) i (lru_value b)) as [[E A]|(j & bv & E & Hj & Hb & A)].
      * right. exists 0%nat, b. split; [rewrite E; lia|].
        split; [reflexivity|]. split; [exact Hlt|].
        intros [|j'] b' H; cbn in H.
        -- injection H as <-. split; [lia|lia].
        -- split; [eapply A; exact H|lia].
      * right. exists (S j), bv. split; [rewrite E; lia|].
        split; [exact Hj|]. split; [lia|].
        intros [|j'] b' H; cbn in H.
        -- injection H as <-. split; [lia|]. intros _. lia.
        -- destruct (A j' b' H) as [A1 A2]. split; [exact A1|].
           intros Hlt'. apply A2. lia.
    + destruct (IH (S i) best best_lru) as [[E A]|(j & bv & E & Hj & Hb & A)].
      * left. split; [exact E|].
        intros [|j'] b' H; cbn in H.
        -- injection H as <-. exact Hge.
        -- eapply A. exact H.
      * right. exists (S j), bv. split; [rewrite E; lia|].
        split; [exact Hj|]. split; [exact Hb|].
        intros [|j'] b' H; cbn in H.
        -- injection H as <-. split; [lia|]. intros _. lia.
        -- destruct (A j' b' H) as [A1 A2]. split; [exact A1|].
           intros Hlt'. apply A2. lia.
Qed.

(** [Spec.lru_victim] is the contract of the description: its block has the
    maximum recency of the set, and every block before it has a strictly
    smaller one. *)
Lemma lru_victim_spec (row : list cache_block) :
  row <> [] ->
  exists bv, row !! Spec.lru_victim row = Some bv /\
    forall j b, row !! j = Some b ->
      lru_value b <= lru_value bv /\
      ((j < Spec.lru_victim row)%nat -> lru_value b < lru_value bv).
Proof.
  destruct row as [|b0 rest]; [congruence|]. intros _.
  cbn [Spec.lru_victim].
  destruct (lru_victim_from_spec rest 1 0 (lru_value b0))
    as [[E A]|(j & bv & E & Hj & Hb & A)]; cbn zeta in *.
  - rewrite E. exists b0. split; [reflexivity|].
    intros [|j] b H; cbn in H.
    + injection H as <-. split; lia.
    + split; [eapply A; exact H|lia].
  - rewrite E. exists bv. split; [exact Hj|].
    intros [|j'] b H; cbn in H.
    + injection H as <-. split; [lia|]. intros _. exact Hb.
    + destruct (A j' b H) as [A1 A2]. split; [exact A1|].
      intros Hlt. apply A2. lia.
Qed.

(** ** C1: the miss handler *)

(** C1, as the code has it.  On a well-formed cache of associativity 1,
    [handle_miss] overwrites the single block of the indexed set with
    [valid = true], [dirty = write], [tag = tag]; that block is the
    least-recently-used block of its set, the result is the install of the
    description, the recency of the block is kept and nothing else in the
    cache changes.  For every other associativity [handle_miss] installs
    nothing and ends the process with exit status 1. *)
Theorem handle_miss_direct_mapped_lru tg index write c :
  wf_cache c = true -> 0 <= index < number_of_sets c ->
  (associativity c = 1 ->
   exists b,
     blocks c !! Z.to_nat index = Some [b] /\
     Spec.lru_victim [b] = 0%nat /\
     handle_miss tg index write c = Returned (Spec.lru_install tg index write c) /\
     Spec.lru_install tg index write c
     = with_blocks c
         (<[Z.to_nat index := [mk_cache_block true write (lru_value b) tg]]>
            (blocks c))) /\
  (associativity c <> 1 -> handle_miss tg index write c = Exited 1).
Proof.
  intros W Hidx. split.
  - intros A. apply wf_cache_unpack in W as (L & R & _).
    destruct (lookup_lt_is_Some_2 (blocks c) (Z.to_nat index)) as [row Hrow];
      [lia|].
    destruct (singleton_row row) as [b ->].
    { rewrite (R _ _ Hrow), A. reflexivity. }
    exists b. split; [exact Hrow|]. split; [reflexivity|].
    assert (E : Spec.lru_install tg index write c
                = with_blocks c
                    (<[Z.to_nat index := [mk_cache_block true write (lru_value b) tg]]>
                       (blocks c))).
    { unfold Spec.lru_install. rewrite Hrow.
      change ([b] !! Spec.lru_victim [b]) with (Some b).
      change (Spec.lru_victim [b]) with 0%nat. cbv beta iota.
      rewrite (set_block_row _ _ _ _ _ Hrow). reflexivity. }
    split; [|exact E].
    rewrite E. apply handle_miss_direct_mapped; assumption.
  - apply handle_miss_exits.
Qed.

Lemma handle_miss_direct_mapped_lru_witness :
  wf_cache direct_mapped = true /\ 0 <= 2 < number_of_sets direct_mapped /\
  handle_miss 5 2 true direct_mapped
  = Returned (Spec.lru_install 5 2 true direct_mapped).
Proof.
  split; [reflexivity|]. split; [cbn; lia|].
  destruct (handle_miss_direct_mapped_lru 5 2 true direct_mapped) as [H _].
  - reflexivity.
  - cbn. lia.
  - destruct (H eq_refl) as (b & _ & _ & E & _). exact E.
Defined.

(** C1 as stated fails for associativity 2: the cache is the one
    [create_cache_struct(4, 2, 1)] returns; on a miss the description has
    block 1 of set 0 (recency 11 against 10) overwritten, the code exits; and
    a run over three distinct tags of set 0 ends at its first reference. *)
Lemma handle_miss_two_way_counterexample :
  create_cache_struct ILP32 stale_heap 4 2 1 = Returned (Some two_way) /\
  wf_cache two_way = true /\
  (blocks (Spec.lru_install 5 0 true two_way)
   = [[fresh_block 10; mk_cache_block true true 11 5];
      [fresh_block 10; fresh_block 11]]) /\
  handle_miss 5 0 true two_way = Exited 1 /\
  handle_miss 5 0 true two_way <> Returned (Spec.lru_install 5 0 true two_way) /\
  do_references [mk_memory_reference 0 DATA_READ;
                 mk_memory_reference 2 DATA_READ;
                 mk_memory_reference 4 DATA_READ] two_way = Exited 1.
Proof.
  split; [exact two_way_created|].
  split; [reflexivity|].
  split; [reflexivity|].
  split; [reflexivity|].
  split; [discriminate|reflexivity].
Qed.

(** ** C3: per-reference processing *)

(** C3, as the code has it.  On every cache the program can hold,
    [do_reference] returns when the associativity is 1; for any other
    associativity it ends the process with exit status 1 (every block is
    still invalid, so the reference misses and [handle_miss] exits).  It
    never runs into undefined behaviour. *)
Theorem do_reference_returns_direct_mapped dm c m :
  reachable dm c ->
  (associativity c = 1 -> exists c', do_reference m c = Returned c') /\
  (associativity c <> 1 -> do_reference m c = Exited 1).
Proof.
  intros R. apply reachable_consistent in R as (W & AI & _). split.
  - intros A.
    destruct (do_reference_direct_mapped m c W A) as (miss & b & b' & _ & _ & _ & _ & E).
    eexists. exact E.
  - intros A. apply do_reference_exits; [exact W|exact A|].
    apply all_invalid_miss; [exact W|exact (AI A)].
Qed.

Lemma do_reference_returns_direct_mapped_witness :
  reachable ILP32 direct_mapped /\
  exists c', do_reference (mk_memory_reference 3 DATA_WRITE) direct_mapped
             = Returned c'.
Proof.
  split; [exact direct_mapped_reachable|].
  exact (proj1 (do_reference_returns_direct_mapped ILP32 direct_mapped
                  (mk_memory_reference 3 DATA_WRITE) direct_mapped_reachable)
               eq_refl).
Defined.

(** C3 as stated fails: [create_cache_struct(4, 2, 1)] returns a cache
    without any complaint, and the first reference processed on it ends the
    process. *)
Lemma do_reference_two_way_counterexample :
  create_cache_struct ILP32 stale_heap 4 2 1 = Returned (Some two_way) /\
  do_reference (mk_memory_reference 0 INSTRUCTION) two_way = Exited 1.
Proof. split; [exact two_way_created|reflexivity]. Qed.

(** ** C4: the recency invariant *)

(** C4.  In every cache the program can hold, a set with a valid block has
    exactly one block of recency 0.  The touch step, on a well-formed cache
    and a set in which block [k] is the only valid block carrying the tag,
    leaves the cache as it is when the recency of block [k] is 0, and
    otherwise sets that recency to 0 and adds 1 to the recency of every other
    block of the set (none of them being at the top of [unsigned int]). *)
Theorem recency_invariant dm c :
  reachable dm c ->
  (forall n row,
     blocks c !! n = Some row ->
     (exists k b, row !! k = Some b /\ valid b = true) ->
     mru_count row = 1%nat) /\
  (forall c1 tg index row k b,
     wf_cache c1 = true ->
     blocks c1 !! Z.to_nat index = Some row ->
     row !! k = Some b -> valid b = true -> tag b = tg ->
     (forall j b', row !! j = Some b' -> valid b' = true -> tag b' = tg ->
                   j = k) ->
     (forall j b', row !! j = Some b' -> j <> k -> uint (lru_value b' + 1)) ->
     update_lru_info tg index c1
     = Returned (if lru_value b =? 0 then c1
                 else with_blocks c1
                        (<[Z.to_nat index := Spec.touch_row k row]>
                           (blocks c1)))).
Proof.
  intros R. apply reachable_consistent in R. split.
  - intros n row Hrow (k & b & Hb & V).
    destruct (consistent_mru c n row k b R Hrow Hb V) as (_ & -> & E).
    unfold mru_count. cbn. rewrite E. reflexivity.
  - intros c1 tg index row k b W Hrow Hb V T U B.
    apply wf_cache_unpack in W as (_ & L & _).
    rewrite <- (age_row_touch_row k row B).
    eapply update_lru_info_touch; try eassumption.
    eapply L. exact Hrow.
Qed.

Lemma direct_mapped_used_reachable : reachable ILP32 direct_mapped_used.
Proof.
  eapply (reachable_reference ILP32 direct_mapped (mk_memory_reference 0 INSTRUCTION)).
  - exact direct_mapped_reachable.
  - unfold uint, modulus. cbn. lia.
  - vm_compute. reflexivity.
Qed.

Lemma recency_invariant_witness :
  reachable ILP32 direct_mapped_used /\
  mru_count [mk_cache_block true false 0 0] = 1%nat /\
  update_lru_info 0 0 two_way_warm
  = Returned (with_blocks two_way_warm
                [[mk_cache_block true false 0 0; mk_cache_block true false 1 1];
                 [fresh_block 10; fresh_block 11]]).
Proof.
  pose proof (recency_invariant ILP32 direct_mapped_used
                direct_mapped_used_reachable) as [A B].
  split; [exact direct_mapped_used_reachable|]. split.
  - apply (A 0%nat).
    + reflexivity.
    + exists 0%nat, (mk_cache_block true false 0 0). split; reflexivity.
  - rewrite (B two_way_warm 0 0
               [mk_cache_block true false 1 0; mk_cache_block true false 0 1]
               0%nat (mk_cache_block true false 1 0)).
    + reflexivity.
    + reflexivity.
    + reflexivity.
    + reflexivity.
    + reflexivity.
    + reflexivity.
    + intros [|[|j]] b' Hb' V T; cbn in Hb'.
      * reflexivity.
      * injection Hb' as <-. discriminate T.
      * discriminate Hb'.
    + intros [|[|j]] b' Hb' Hne; cbn in Hb'.
      * contradiction.
      * injection Hb' as <-. cbn. unfold uint, modulus. lia.
      * discriminate Hb'.
Defined.

(** ** C5: the performance counters *)

Lemma create_cache_struct_perf dm heap sz assoc bs c :
  create_cache_struct dm heap sz assoc bs = Returned (Some c) ->
  perf c = zero_perf.
Proof.
  unfold create_cache_struct. intros H.
  destruct (negb (is_power_of_two bs)); [discriminate H|].
  destruct (wrap (assoc * bs) =? 0); [discriminate H|].
  destruct (sz / wrap (assoc * bs) =? 0); [discriminate H|].
  destruct (negb (is_power_of_two (sz / wrap (assoc * bs)))); [discriminate H|].
  injection H as <-. reflexivity.
Qed.

(** The effect of one returning call on each of the six counters. *)
Lemma do_reference_counters m c c' :
  do_reference m c = Returned c' ->
  exists miss,
    is_miss (get_tag_from_address (address m) c)
            (get_index_from_address (address m) c) c = Returned miss /\
    (counted (type m) = false -> perf c' = perf c) /\
    forall t,
      counted t = true ->
      reference_count t (perf c')
      = (if REFERENCE_TYPE_eqb t (type m)
         then wrap (reference_count t (perf c) + 1)
         else reference_count t (perf c)) /\
      miss_count t (perf c')
      = (if REFERENCE_TYPE_eqb t (type m) && miss
         then wrap (miss_count t (perf c) + 1)
         else miss_count t (perf c)).
Proof.
  intros H. apply do_reference_frame in H as (miss & E & P & _).
  exists miss. split; [exact E|]. split.
  - intros U. rewrite P.
    destruct (type m), miss; try discriminate U; reflexivity.
  - intros t Ht. rewrite P.
    destruct t, (type m), miss; try discriminate Ht; split; reflexivity.
Qed.

Lemma counted_references_cons m trace :
  counted_references (m :: trace)
  = (if counted (type m) then 1 else 0) + counted_references trace.
Proof.
  unfold counted_references. cbn [List.filter].
  destruct (counted (type m)); cbn [length]; lia.
Qed.

Lemma counted_references_bounds trace :
  0 <= counted_references trace <= Z.of_nat (length trace).
Proof.
  induction trace as [|m trace IH].
  - unfold counted_references. cbn. lia.
  - rewrite counted_references_cons. cbn [length].
    destruct (counted (type m)); lia.
Qed.

Lemma counted_references_app pre post :
  counted_references (pre ++ post)
  = counted_references pre + counted_references post.
Proof.
  induction pre as [|m pre IH]; cbn [app].
  - change (counted_references []) with 0. lia.
  - rewrite !counted_references_cons, IH. lia.
Qed.

(** A trace the reader recognised every letter of. *)
Lemma counted_references_all trace :
  Forall (fun m => counted (type m) = true) trace ->
  counted_references trace = Z.of_nat (length trace).
Proof.
  induction 1 as [|m trace Hm _ IH].
  - reflexivity.
  - rewrite counted_references_cons, Hm, IH. cbn [length]. lia.
Qed.

Lemma do_references_app pre : forall post c,
  do_references (pre ++ post) c
  = (c1 <- do_references pre c ;; do_references post c1).
Proof.
  induction pre as [|m pre IH]; intros post c; cbn [do_references app bind].
  - reflexivity.
  - destruct (do_reference m c) as [c1| |]; cbn [bind]; [apply IH|reflexivity..].
Qed.

Lemma do_references_counters trace : forall c c' n,
  do_references trace c = Returned c' ->
  perf_within n (perf c) -> sum_reference_counts (perf c) = n ->
  n + counted_references trace < modulus ->
  sum_reference_counts (perf c') = n + counted_references trace /\
  perf_within (n + counted_references trace) (perf c') /\
  perf_le (perf c) (perf c').
Proof.
  induction trace as [|m trace IH]; intros c c' n H B S L.
  - cbn in H. injection H as <-.
    change (counted_references []) with 0. rewrite Z.add_0_r.
    split; [exact S|]. split; [exact B|]. intros t. lia.
  - cbn [do_references] in H.
    destruct (do_reference m c) as [c1| |] eqn:E; cbn [bind] in H;
      try discriminate H.
    apply do_reference_counters in E as (miss & _ & _ & P).
    rewrite counted_references_cons in L |- *.
    pose proof (counted_references_bounds trace) as [T0 _].
    assert (Hm : modulus = 4294967296) by reflexivity.
    assert (B1 : perf_within (n + (if counted (type m) then 1 else 0))
                   (perf c1)).
    { intros t. destruct (B t) as [[? ?] [? ?]].
      destruct t; [counters_at P c1..|cbn [reference_count miss_count] in *];
        destruct (type m), miss;
        cbn [REFERENCE_TYPE_eqb andb counted] in L |- *;
        rewrite ?wrap_small by (unfold uint; lia); lia. }
    assert (S1 : sum_reference_counts (perf c1)
                 = n + (if counted (type m) then 1 else 0)).
    { unfold sum_reference_counts in *.
      pose proof (P INSTRUCTION eq_refl) as [PI _].
      pose proof (P DATA_READ eq_refl) as [PR _].
      pose proof (P DATA_WRITE eq_refl) as [PW _].
      pose proof (B INSTRUCTION) as [[? ?] _]. pose proof (B DATA_READ) as [[? ?] _].
      pose proof (B DATA_WRITE) as [[? ?] _].
      cbn [reference_count] in *. rewrite PI, PR, PW.
      destruct (type m); cbn [REFERENCE_TYPE_eqb counted] in L |- *;
        rewrite ?wrap_small by (unfold uint; lia); lia. }
    assert (L1 : perf_le (perf c) (perf c1)).
    { intros t. destruct (B t) as [[? ?] [? ?]].
      destruct t; [counters_at P c1..|cbn [reference_count miss_count] in *];
        destruct (type m), miss;
        cbn [REFERENCE_TYPE_eqb andb counted] in L |- *;
        rewrite ?wrap_small by (unfold uint; lia); lia. }
    destruct (IH c1 c' _ H B1 S1 ltac:(lia)) as (S' & B' & L').
    split; [lia|]. split.
    + replace (n + ((if counted (type m) then 1 else 0)
                    + counted_references trace))
        with (n + (if counted (type m) then 1 else 0)
              + counted_references trace) by lia.
      exact B'.
    + intros t. destruct (L1 t), (L' t). lia.
Qed.

(** C5, as the code has it.  One returning call adds 1, modulo 2^32, to the
    reference count of the category of the reference, adds 1, modulo 2^32,
    to the miss count of that category exactly when the reference misses,
    and leaves the other counters unchanged; a reference whose type is none
    of the three enumerators (the reader delivers one for a letter it does
    not know) is processed and changes no counter at all.  From
    construction, as long as fewer than 2^32 references of the three
    categories have been processed, the three reference counts add up to the
    number of processed references of those categories, which is the number
    of references processed when each of them has a category, and no counter
    ever decreases. *)
Theorem counters_modulo dm heap sz assoc bs c0 trace c' :
  create_cache_struct dm heap sz assoc bs = Returned (Some c0) ->
  do_references trace c0 = Returned c' ->
  counted_references trace < modulus ->
  sum_reference_counts (perf c') = counted_references trace /\
  (Forall (fun m => counted (type m) = true) trace ->
   sum_reference_counts (perf c') = Z.of_nat (length trace)) /\
  (forall pre post c1,
     trace = pre ++ post -> do_references pre c0 = Returned c1 ->
     perf_le (perf c1) (perf c')) /\
  (forall m c1 c2,
     do_reference m c1 = Returned c2 ->
     exists miss,
       is_miss (get_tag_from_address (address m) c1)
               (get_index_from_address (address m) c1) c1 = Returned miss /\
       (counted (type m) = false -> perf c2 = perf c1) /\
       forall t,
         counted t = true ->
         reference_count t (perf c2)
         = (if REFERENCE_TYPE_eqb t (type m)
            then wrap (reference_count t (perf c1) + 1)
            else reference_count t (perf c1)) /\
         miss_count t (perf c2)
         = (if REFERENCE_TYPE_eqb t (type m) && miss
            then wrap (miss_count t (perf c1) + 1)
            else miss_count t (perf c1))).
Proof.
  intros Hc Hrun Hlen.
  apply create_cache_struct_perf in Hc.
  assert (B0 : perf_within 0 (perf c0)).
  { rewrite Hc. intros t. destruct t; cbn; lia. }
  assert (S0 : sum_reference_counts (perf c0) = 0) by (rewrite Hc; reflexivity).
  assert (S : sum_reference_counts (perf c') = counted_references trace).
  { destruct (do_references_counters trace c0 c' 0 Hrun B0 S0 ltac:(lia))
      as (S & _ & _). lia. }
  split; [exact S|]. split; [|split].
  - intros A. rewrite S. apply counted_references_all, A.
  - intros pre post c1 -> Hpre.
    rewrite do_references_app, Hpre in Hrun. cbn [bind] in Hrun.
    rewrite counted_references_app in Hlen.
    pose proof (counted_references_bounds pre) as [? _].
    pose proof (counted_references_bounds post) as [? _].
    destruct (do_references_counters pre c0 c1 0 Hpre B0 S0 ltac:(lia))
      as (S1 & B1 & _).
    destruct (do_references_counters post c1 c' _ Hrun B1 S1 ltac:(lia))
      as (_ & _ & L).
    exact L.
  - intros m c1 c2. apply do_reference_counters.
Qed.

Lemma counters_modulo_witness :
  create_cache_struct ILP32 stale_heap 4 1 1 = Returned (Some direct_mapped) /\
  exists c',
    do_references [mk_memory_reference 0 INSTRUCTION;
                   mk_memory_reference 1 DATA_WRITE;
                   mk_memory_reference 2 OUT_OF_RANGE;
                   mk_memory_reference 0 DATA_READ] direct_mapped
    = Returned c' /\
    sum_reference_counts (perf c') = 3.
Proof.
  split; [exact direct_mapped_created|].
  eexists. split; [vm_compute; reflexivity|].
  eapply (proj1 (counters_modulo ILP32 stale_heap 4 1 1 direct_mapped
                   [mk_memory_reference 0 INSTRUCTION;
                    mk_memory_reference 1 DATA_WRITE;
                    mk_memory_reference 2 OUT_OF_RANGE;
                    mk_memory_reference 0 DATA_READ] _
                   direct_mapped_created ltac:(vm_compute; reflexivity)
                   ltac:(reflexivity))).
Defined.

Lemma direct_mapped_hot_step k :
  do_reference fetch_0 (direct_mapped_hot k)
  = Returned (direct_mapped_hot (wrap (k + 1))).
Proof. reflexivity. Qed.

Lemma direct_mapped_hot_run n : forall k,
  uint k ->
  do_references (repeat fetch_0 n) (direct_mapped_hot k)
  = Returned (direct_mapped_hot (wrap (k + Z.of_nat n))).
Proof.
  induction n as [|n IH]; intros k Hk.
  - cbn [repeat do_references Z.of_nat]. rewrite Z.add_0_r, wrap_small by exact Hk.
    reflexivity.
  - cbn [repeat do_references]. rewrite direct_mapped_hot_step. cbn [bind].
    rewrite IH by apply wrap_uint.
    do 2 f_equal. unfold wrap. rewrite Zplus_mod_idemp_l. f_equal. lia.
Qed.

Lemma direct_mapped_cold_run n :
  do_references (repeat fetch_0 (S n)) direct_mapped
  = Returned (direct_mapped_hot (wrap (1 + Z.of_nat n))).
Proof.
  cbn [repeat do_references].
  assert (E : do_reference fetch_0 direct_mapped = Returned (direct_mapped_hot 1))
    by reflexivity.
  rewrite E. cbn [bind]. apply direct_mapped_hot_run.
  unfold uint, modulus. lia.
Qed.

Lemma direct_mapped_long_run z :
  1 <= z ->
  do_references (repeat fetch_0 (Z.to_nat z)) direct_mapped
  = Returned (direct_mapped_hot (wrap z)).
Proof.
  intros Hz.
  assert (E : Z.to_nat z = S (Z.to_nat (z - 1))) by lia.
  rewrite E, direct_mapped_cold_run. rewrite Z2Nat.id by lia.
  do 3 f_equal. lia.
Qed.

(** C5 as stated fails in two ways.  A reference whose type is none of the
    enumerators, which [get_next_reference] delivers when the letter in the
    trace is not I, R or W, is processed like any other (here it misses and
    its block is installed) but falls into the [default:] arm of both
    [switch] statements: one reference has been processed and the three
    reference counts add up to 0.  And a counter that is full wraps: from
    construction, 2^32 - 1 instruction fetches leave the instruction
    reference count at 2^32 - 1; the next one returns it to 0: the counter
    has decreased, and after 2^32 references processed the three reference
    counts add up to 0. *)
Lemma counters_sum_counterexample :
  create_cache_struct ILP32 stale_heap 4 1 1 = Returned (Some direct_mapped) /\
  do_references [mk_memory_reference 0 OUT_OF_RANGE] direct_mapped
  = Returned direct_mapped_uncounted /\
  sum_reference_counts (perf direct_mapped_uncounted) = 0 /\
  do_references (repeat fetch_0 (Z.to_nat 4294967295)) direct_mapped
  = Returned (direct_mapped_hot 4294967295) /\
  do_reference fetch_0 (direct_mapped_hot 4294967295)
  = Returned (direct_mapped_hot 0) /\
  do_references (repeat fetch_0 (Z.to_nat 4294967296)) direct_mapped
  = Returned (direct_mapped_hot 0) /\
  instruction_reference_count (perf (direct_mapped_hot 0))
  < instruction_reference_count (perf (direct_mapped_hot 4294967295)) /\
  sum_reference_counts (perf (direct_mapped_hot 0)) <> 4294967296.
Proof.
  split; [exact direct_mapped_created|].
  split; [reflexivity|]. split; [reflexivity|].
  split.
  { rewrite (direct_mapped_long_run 4294967295) by lia. reflexivity. }
  split; [exact (direct_mapped_hot_step 4294967295)|].
  split.
  { rewrite (direct_mapped_long_run 4294967296) by lia. reflexivity. }
  split; [reflexivity|vm_compute; discriminate].
Qed.

(** ** C2: geometry validation *)

(** C2 at the inputs where the code departs from it.  For size 2^30,
    associativity 5 and block size 2^30 the quotient
    [size / (associativity * block_size)] is 0, yet the product is formed in
    [unsigned int], wraps to 2^30, and a cache of one set is returned.  With
    associativity 4 the product wraps to 0 and the division has no result. *)
Theorem create_cache_struct_product_wraps dm heap :
  1073741824 / (5 * 1073741824) = 0 /\
  wrap (5 * 1073741824) = 1073741824 /\
  (exists c,
     create_cache_struct dm heap 1073741824 5 1073741824 = Returned (Some c) /\
     number_of_sets c = 1) /\
  create_cache_struct dm heap 1073741824 4 1073741824 = Crashed DivisionByZero.
Proof.
  assert (P : is_power_of_two 1073741824 = true) by (vm_compute; reflexivity).
  assert (P1 : is_power_of_two 1 = true) by (vm_compute; reflexivity).
  assert (W5 : wrap (5 * 1073741824) = 1073741824) by reflexivity.
  assert (W4 : wrap (4 * 1073741824) = 0) by reflexivity.
  split; [reflexivity|]. split; [exact W5|]. split.
  - rewrite create_cache_struct_eq, P. cbv zeta. cbn [negb]. rewrite W5.
    change (1073741824 =? 0) with false.
    change (1073741824 / 1073741824) with 1.
    change (1 =? 0) with false. cbv iota. rewrite P1. cbn [negb].
    eexists. split; [reflexivity|].
    rewrite determine_address_widths_eq. reflexivity.
  - rewrite create_cache_struct_eq, P. cbv zeta. cbn [negb]. rewrite W4.
    reflexivity.
Qed.


(** ** C6: address decomposition *)

Lemma ones_shiftl n : Z.shiftl 1 n - 1 = Z.ones n.
Proof. unfold Z.ones. lia. Qed.

(** C6.  For every cache [create_cache_struct] returns and every
    [unsigned int] address, the tag is [address >> (offset_width +
    index_width)], the index is [(address >> offset_width) & ((1 <<
    index_width) - 1)], and these two fields and the offset
    [address & ((1 << offset_width) - 1)], shifted back into place and or-ed
    together, give the address masked to [address_width] bits. *)
Theorem address_round_trip dm heap sz assoc bs c a :
  uint sz -> uint assoc -> uint bs -> uint a ->
  create_cache_struct dm heap sz assoc bs = Returned (Some c) ->
  let ow := offset_width (addr_info c) in
  let iw := index_width (addr_info c) in
  get_tag_from_address a c = Z.shiftr a (ow + iw) /\
  get_index_from_address a c = Z.land (Z.shiftr a ow) (Z.shiftl 1 iw - 1) /\
  Spec.get_offset_from_address a c = Z.land a (Z.shiftl 1 ow - 1) /\
  Spec.recombine a c = Z.land a (Z.shiftl 1 (address_width (addr_info c)) - 1).
Proof.
  intros Hsz Hassoc Hbs Ha H.
  destruct (create_cache_struct_inv dm heap sz assoc bs c Hsz Hassoc Hbs H)
    as (ow & iw & How & Hiw & Hsum & _ & _ & _ & ->).
  cbn zeta.
  unfold Spec.recombine, get_tag_from_address, get_index_from_address,
    Spec.get_offset_from_address.
  cbn [addr_info offset_width index_width address_width].
  assert (Hm : modulus = 4294967296) by reflexivity.
  assert (Hi : 0 < 2 ^ iw) by (apply Z.pow_pos_nonneg; lia).
  assert (Hi' : 2 ^ iw < 2 ^ 32) by (apply Z.pow_lt_mono_r; lia).
  rewrite (wrap_small (ow + iw)) by (unfold uint; lia).
  rewrite (wrap_small (Z.shiftl 1 iw - 1))
    by (rewrite Z.shiftl_1_l; unfold uint; lia).
  split; [reflexivity|]. split; [reflexivity|]. split; [reflexivity|].
  rewrite !ones_shiftl.
  assert (Hw : 32 <= 8 * sizeof_void_ptr dm) by (destruct dm; cbn; lia).
  apply Z.bits_inj'. intros n Hn.
  rewrite !Z.lor_spec, !Z.land_spec, !Z.testbit_ones_nonneg by lia.
  rewrite !Z.shiftl_spec by lia.
  assert (Hhigh : 32 <= n -> Z.testbit a n = false).
  { intros Hge. destruct Ha as [Ha0 Ha1].
    destruct (Z.eq_dec a 0) as [->|Hnz]; [apply Z.bits_0|].
    apply Z.bits_above_log2; [lia|].
    apply Z.log2_lt_pow2; [lia|].
    apply Z.lt_le_trans with (2 ^ 32); [exact Ha1|].
    apply Z.pow_le_mono_r; lia. }
  destruct (Z.lt_ge_cases n ow) as [L1|G1].
  - rewrite (Z.testbit_neg_r _ (n - (ow + iw))) by lia.
    rewrite (Z.testbit_neg_r _ (n - ow)) by lia.
    cbn [orb].
    destruct (Z.ltb_spec n ow) as [_|]; [|lia].
    destruct (Z.ltb_spec n (8 * sizeof_void_ptr dm)) as [_|]; [|lia].
    reflexivity.
  - destruct (Z.ltb_spec n ow) as [|_]; [lia|].
    rewrite andb_false_r, orb_false_r.
    rewrite Z.land_spec, Z.testbit_ones_nonneg by lia.
    rewrite (Z.shiftr_spec a ow (n - ow)) by lia.
    replace (n - ow + ow) with n by lia.
    destruct (Z.lt_ge_cases n (ow + iw)) as [L2|G2].
    + rewrite (Z.testbit_neg_r _ (n - (ow + iw))) by lia.
      cbn [orb].
      destruct (Z.ltb_spec (n - ow) iw) as [_|]; [|lia].
      destruct (Z.ltb_spec n (8 * sizeof_void_ptr dm)) as [_|]; [|lia].
      reflexivity.
    + rewrite (Z.shiftr_spec a (ow + iw) (n - (ow + iw))) by lia.
      replace (n - (ow + iw) + (ow + iw)) with n by lia.
      destruct (Z.ltb_spec (n - ow) iw) as [|_]; [lia|].
      rewrite andb_false_r, orb_false_r.
      destruct (Z.ltb_spec n (8 * sizeof_void_ptr dm)) as [_|G3].
      * rewrite andb_true_r. reflexivity.
      * rewrite Hhigh by lia. reflexivity.
Qed.

Lemma address_round_trip_witness :
  uint 1024 /\ uint 1 /\ uint 32 /\ uint 305419896 /\
  exists c,
    create_cache_struct LP64 stale_heap 1024 1 32 = Returned (Some c) /\
    get_tag_from_address 305419896 c = 298261 /\
    get_index_from_address 305419896 c = 19 /\
    Spec.recombine 305419896 c = 305419896.
Proof.
  assert (U : forall z, 0 <= z < 4294967296 -> uint z)
    by (intros z Hz; exact Hz).
  split; [apply U; lia|]. split; [apply U; lia|]. split; [apply U; lia|].
  split; [apply U; lia|].
  eexists. split; [vm_compute; reflexivity|].
  split; [reflexivity|]. split; [reflexivity|].
  etransitivity.
  - eapply (address_round_trip LP64 stale_heap 1024 1 32 _ 305419896);
      [apply U; lia ..|vm_compute; reflexivity].
  - reflexivity.
Defined.

(** ** C7: the address widths *)

(** C7, as the code has it.  For every cache [create_cache_struct] returns,
    the offset width is the base-2 logarithm of the block size, the index
    width is the base-2 logarithm of the number of sets, and offset, index
    and tag width add up to the address width exactly; the address width is
    the width of a pointer of the platform, [sizeof(void* ) << 3]: 32 under
    ILP32, 64 under LP64. *)
Theorem address_widths_sum dm heap sz assoc bs c :
  uint sz -> uint assoc -> uint bs ->
  create_cache_struct dm heap sz assoc bs = Returned (Some c) ->
  let a := addr_info c in
  2 ^ offset_width a = block_size c /\
  offset_width a = Z.log2 (block_size c) /\
  2 ^ index_width a = number_of_sets c /\
  index_width a = Z.log2 (number_of_sets c) /\
  number_of_sets c = sz / wrap (assoc * bs) /\
  0 <= tag_width a /\
  offset_width a + index_width a + tag_width a = address_width a /\
  address_width a = 8 * sizeof_void_ptr dm.
Proof.
  intros Hsz Hassoc Hbs H.
  destruct (create_cache_struct_inv dm heap sz assoc bs c Hsz Hassoc Hbs H)
    as (ow & iw & How & Hiw & Hsum & Ebs & _ & Esets & ->).
  cbn zeta. cbn [addr_info offset_width index_width tag_width address_width
                 block_size number_of_sets].
  assert (Hw : 32 <= 8 * sizeof_void_ptr dm) by (destruct dm; cbn; lia).
  subst bs. rewrite !Z.log2_pow2 by lia.
  repeat split; try reflexivity; try lia.
Qed.

Lemma address_widths_sum_witness :
  uint 1024 /\ uint 1 /\ uint 32 /\
  exists c,
    create_cache_struct ILP32 stale_heap 1024 1 32 = Returned (Some c) /\
    offset_width (addr_info c) + index_width (addr_info c)
    + tag_width (addr_info c) = address_width (addr_info c).
Proof.
  assert (U : forall z, 0 <= z < 4294967296 -> uint z)
    by (intros z Hz; exact Hz).
  split; [apply U; lia|]. split; [apply U; lia|]. split; [apply U; lia|].
  eexists. split; [vm_compute; reflexivity|].
  eapply (address_widths_sum ILP32 stale_heap 1024 1 32);
    [apply U; lia ..|vm_compute; reflexivity].
Defined.

(** C7 as stated fails on a 64-bit platform: the address width of the cache
    built for size 1024, associativity 1 and block size 32 is 64, and the
    three widths add up to 64, not to the constant 32. *)
Lemma address_width_lp64_counterexample :
  exists c,
    create_cache_struct LP64 stale_heap 1024 1 32 = Returned (Some c) /\
    address_width (addr_info c) = 64 /\
    offset_width (addr_info c) + index_width (addr_info c)
    + tag_width (addr_info c) = 64 /\
    address_width (addr_info c) <> 32.
Proof.
  eexists. split; [vm_compute; reflexivity|].
  split; [reflexivity|]. split; [reflexivity|]. cbn. discriminate.
Qed.

(** ** C8: the driver *)

(** When [create_cache_struct] returns NULL the driver goes on: whatever the
    trace, [main] ends in a null dereference. *)
Lemma main_ignores_null dm heap cache_size cache_associativity cache_block_size
    trace :
  0 < cache_size -> 0 < cache_associativity -> 0 < cache_block_size ->
  cache_block_size <= cache_size -> cache_associativity <= cache_size ->
  create_cache_struct dm heap (wrap cache_size) (wrap cache_associativity)
    (wrap cache_block_size) = Returned None ->
  main dm heap 5 cache_size cache_associativity cache_block_size trace
  = Crashed NullDereference.
Proof.
  intros H1 H2 H3 H4 H5 Hc. unfold main.
  change (negb (5 =? 5)) with false. cbv iota.
  destruct (Z.leb_spec cache_size 0); [lia|].
  destruct (Z.leb_spec cache_associativity 0); [lia|].
  destruct (Z.leb_spec cache_block_size 0); [lia|].
  destruct (Z.ltb_spec cache_size cache_block_size); [lia|].
  destruct (Z.ltb_spec cache_size cache_associativity); [lia|].
  cbn [orb]. cbv zeta. change (0 =? -1) with false. cbv iota.
  rewrite Hc. cbn [bind].
  destruct trace as [[|mr rest]|]; reflexivity.
Qed.

(** C8 at an input where the code departs from it.  The arguments
    [12 1 4] pass the checks of [main] and fail geometry validation (3 sets);
    [create_cache_struct] returns NULL, [main] does not look at the pointer,
    and instead of returning a non-zero status it runs into a null
    dereference: in [do_reference] on the first reference of the trace, or,
    when the trace is empty, on reading the counters, or in [feof] when the
    trace file could not be opened. *)
Theorem main_null_dereference dm heap trace :
  create_cache_struct dm heap 12 1 4 = Returned None /\
  main dm heap 5 12 1 4 trace = Crashed NullDereference /\
  (forall mr, do_reference_ptr mr None = Crashed NullDereference).
Proof.
  assert (P : is_power_of_two 4 = true) by (vm_compute; reflexivity).
  assert (P3 : is_power_of_two 3 = false) by (vm_compute; reflexivity).
  assert (Hc : create_cache_struct dm heap 12 1 4 = Returned None).
  { rewrite create_cache_struct_eq, P. cbv zeta. cbn [negb].
    change (wrap (1 * 4)) with 4. change (4 =? 0) with false.
    change (12 / 4) with 3. change (3 =? 0) with false. cbv iota.
    rewrite P3. reflexivity. }
  split; [exact Hc|]. split; [|reflexivity].
  apply main_ignores_null; try lia. exact Hc.
Qed.

(** ** C9: a hit changes no block's contents *)

(** C9.  On a well-formed cache, a reference that hits returns, and every
    block of the cache, the block that was hit included, keeps its [valid],
    [dirty] and [tag]: a data write that hits does not set [dirty]. *)
Theorem hit_keeps_blocks m c :
  wf_cache c = true ->
  is_miss (get_tag_from_address (address m) c)
          (get_index_from_address (address m) c) c = Returned false ->
  exists c',
    do_reference m c = Returned c' /\
    forall n row k b,
      blocks c !! n = Some row -> row !! k = Some b ->
      exists row' b',
        blocks c' !! n = Some row' /\ row' !! k = Some b' /\
        valid b' = valid b /\ dirty b' = dirty b /\ tag b' = tag b.
Proof.
  intros W Hmiss.
  destruct (wf_cache_row c (address m) W) as (row0 & Hrow0 & Hlen0).
  destruct (do_reference_hit m c row0 Hrow0 Hlen0 Hmiss) as (row0' & E & L & P).
  eexists. split; [exact E|].
  intros n row k b Hrow Hb. cbn [blocks with_perf with_blocks].
  destruct (decide (n = Z.to_nat (get_index_from_address (address m) c)))
    as [->|Hne].
  - rewrite Hrow0 in Hrow. injection Hrow as <-.
    destruct (P k b Hb) as (b' & Hb' & V & D & T).
    exists row0', b'. split; [eapply lookup_insert_row; exact Hrow0|].
    auto.
  - exists row, b. rewrite list_lookup_insert_ne by congruence. auto.
Qed.

Lemma hit_keeps_blocks_witness :
  wf_cache direct_mapped_used = true /\
  is_miss (get_tag_from_address 0 direct_mapped_used)
          (get_index_from_address 0 direct_mapped_used) direct_mapped_used
  = Returned false /\
  exists c',
    do_reference (mk_memory_reference 0 DATA_WRITE) direct_mapped_used
    = Returned c' /\
    exists row' b',
      blocks c' !! 0%nat = Some row' /\ row' !! 0%nat = Some b' /\
      valid b' = true /\ dirty b' = false /\ tag b' = 0.
Proof.
  split; [reflexivity|]. split; [reflexivity|].
  destruct (hit_keeps_blocks (mk_memory_reference 0 DATA_WRITE)
              direct_mapped_used eq_refl eq_refl) as (c' & E & P).
  exists c'. split; [exact E|].
  exact (P 0%nat [mk_cache_block true false 0 0] 0%nat
           (mk_cache_block true false 0 0) eq_refl eq_refl).
Defined.

(** ** C10: what a reference leaves alone *)

(** C10.  On a well-formed cache [do_reference] either ends the process
    (a miss in a cache that is not direct-mapped, nothing having been
    written) or returns, and then it has changed nothing but the blocks of
    the set the address decodes to and the counters: the geometry, the
    address widths and every other set are as before. *)
Theorem do_reference_touches_one_set m c :
  wf_cache c = true ->
  (associativity c <> 1 /\ do_reference m c = Exited 1) \/
  (exists c',
     do_reference m c = Returned c' /\
     size c' = size c /\ associativity c' = associativity c /\
     block_size c' = block_size c /\ number_of_sets c' = number_of_sets c /\
     addr_info c' = addr_info c /\
     forall j, j <> Z.to_nat (get_index_from_address (address m) c) ->
               blocks c' !! j = blocks c !! j).
Proof.
  intros W. destruct (do_reference_defined m c W) as [[c' H]|H].
  - right. exists c'. split; [exact H|].
    apply do_reference_frame in H
      as (miss & _ & _ & A1 & A2 & A3 & A4 & A5 & A6).
    auto 10.
  - left. exact H.
Qed.

Lemma do_reference_touches_one_set_witness :
  wf_cache direct_mapped_used = true /\
  exists c',
    do_reference (mk_memory_reference 6 DATA_READ) direct_mapped_used
    = Returned c' /\
    addr_info c' = addr_info direct_mapped_used /\
    blocks c' !! 0%nat = blocks direct_mapped_used !! 0%nat.
Proof.
  split; [reflexivity|].
  destruct (do_reference_touches_one_set (mk_memory_reference 6 DATA_READ)
              direct_mapped_used eq_refl)
    as [[A _]|(c' & E & _ & _ & _ & _ & A & F)].
  - exfalso. apply A. reflexivity.
  - exists c'. split; [exact E|]. split; [exact A|]. apply F.
    intros Heq. vm_compute in Heq. discriminate Heq.
Defined.

(** * Further properties of the code *)

(** ** is_power_of_two and log_two *)

(** [is_power_of_two] accepts exactly the powers of two an [unsigned int]
    can hold; in particular it rejects 0. *)
Theorem is_power_of_two_exact n :
  uint n ->
  (is_power_of_two n = true <-> exists k, 0 <= k < 32 /\ n = 2 ^ k) /\
  (n = 0 -> is_power_of_two n = false).
Proof.
  intros Hn. split; [split|].
  - apply is_power_of_two_true. exact Hn.
  - intros (k & Hk & ->). apply pow2_accepted. exact Hk.
  - intros ->. vm_compute. reflexivity.
Qed.

Lemma is_power_of_two_exact_witness :
  uint 64 /\ is_power_of_two 64 = true.
Proof.
  assert (U : uint 64) by (unfold uint, modulus; lia).
  split; [exact U|].
  apply (proj1 (is_power_of_two_exact 64 U)).
  exists 6. split; [lia|reflexivity].
Defined.

Lemma log_two_eq n :
  log_two n = (if negb (is_power_of_two n) then -1 else first_one int_bits 0 n).
Proof. reflexivity. Qed.

(** [log_two] inverts the powers of two and answers -1 on everything else. *)
Theorem log_two_exact n :
  uint n ->
  (power_of_two n -> 0 <= log_two n < 32 /\ 2 ^ log_two n = n) /\
  (~ power_of_two n -> log_two n = -1).
Proof.
  intros Hn. split.
  - intros P. apply (is_power_of_two_spec n Hn) in P.
    destruct (is_power_of_two_true n Hn P) as (k & Hk & ->).
    destruct (pow2_accepted k Hk) as [_ ->]. split; [lia|reflexivity].
  - intros NP. rewrite log_two_eq.
    destruct (is_power_of_two n) eqn:P; [|reflexivity].
    exfalso. apply NP. apply (is_power_of_two_spec n Hn). exact P.
Qed.

Lemma log_two_exact_witness :
  uint 4096 /\ power_of_two 4096 /\ 2 ^ log_two 4096 = 4096.
Proof.
  assert (U : uint 4096) by (unfold uint, modulus; lia).
  assert (P : power_of_two 4096) by (exists 12; split; [lia|reflexivity]).
  split; [exact U|]. split; [exact P|].
  exact (proj2 (proj1 (log_two_exact 4096 U) P)).
Defined.

(** ** create_cache_struct *)


Lemma initial_blocks_block heap assoc sets n row k b :
  initial_blocks heap assoc sets !! n = Some row -> row !! k = Some b ->
  valid b = false /\ dirty b = false /\ tag b = 0.
Proof.
  intros H Hb. apply list_elem_of_lookup_2, list_elem_of_In in H.
  unfold initial_blocks in H. apply in_map_iff in H as (i & <- & _).
  apply list_elem_of_lookup_2, list_elem_of_In in Hb.
  apply in_map_iff in Hb as (j & <- & _). auto.
Qed.

(** The cache [create_cache_struct] returns: the arguments are stored, there
    is one row of [associativity] blocks per set, every block is invalid,
    clean and has tag 0, all six counters are 0, the associativity is at
    least 1, and the sets times the (wrapped) bytes per set fit in [size]. *)
Theorem created_cache_state dm heap sz assoc bs c :
  uint sz -> uint assoc -> uint bs ->
  create_cache_struct dm heap sz assoc bs = Returned (Some c) ->
  size c = sz /\ associativity c = assoc /\ block_size c = bs /\
  1 <= assoc /\ 1 <= number_of_sets c /\
  number_of_sets c * wrap (assoc * bs) <= sz /\
  length (blocks c) = Z.to_nat (number_of_sets c) /\
  (forall n row, blocks c !! n = Some row ->
     length row = Z.to_nat assoc /\
     forall k b, row !! k = Some b ->
       valid b = false /\ dirty b = false /\ tag b = 0) /\
  perf c = zero_perf.
Proof.
  intros Hsz Hassoc Hbs H.
  destruct (create_cache_struct_inv dm heap sz assoc bs c Hsz Hassoc Hbs H)
    as (ow & iw & How & Hiw & Hsum & Ebs & Hdiv & Esets & ->).
  cbn [size associativity block_size number_of_sets blocks perf].
  assert (Hp : 0 < 2 ^ iw) by (apply Z.pow_pos_nonneg; lia).
  pose proof (wrap_uint (assoc * bs)) as Hd.
  repeat split; try reflexivity.
  - destruct (Z.eq_dec assoc 0) as [->|]; [|unfold uint in *; lia].
    exfalso. apply Hdiv. reflexivity.
  - lia.
  - rewrite <- Esets, Z.mul_comm. apply Z.mul_div_le. unfold uint in Hd. lia.
  - unfold initial_blocks. rewrite length_map, length_seq. reflexivity.
  - apply initial_blocks_row in H0. apply H0.
  - eapply initial_blocks_block; eassumption.
  - eapply initial_blocks_block; eassumption.
  - eapply initial_blocks_block; eassumption.
Qed.

Lemma created_cache_state_witness :
  uint 4 /\ uint 2 /\ uint 1 /\
  create_cache_struct ILP32 stale_heap 4 2 1 = Returned (Some two_way) /\
  length (blocks two_way) = Z.to_nat (number_of_sets two_way) /\
  perf two_way = zero_perf.
Proof.
  assert (U : forall z, 0 <= z < 4294967296 -> uint z)
    by (intros z Hz; exact Hz).
  split; [apply U; lia|]. split; [apply U; lia|]. split; [apply U; lia|].
  split; [exact two_way_created|].
  pose proof (created_cache_state ILP32 stale_heap 4 2 1 two_way
                ltac:(apply U; lia) ltac:(apply U; lia) ltac:(apply U; lia)
                two_way_created) as (_ & _ & _ & _ & _ & _ & L & _ & P).
  split; [exact L|exact P].
Defined.

(** On a freshly constructed cache every lookup is a miss, whatever the
    address and whatever the associativity. *)
Theorem fresh_cache_misses dm heap sz assoc bs c a :
  uint sz -> uint assoc -> uint bs ->
  create_cache_struct dm heap sz assoc bs = Returned (Some c) ->
  is_miss (get_tag_from_address a c) (get_index_from_address a c) c
  = Returned true.
Proof.
  intros Hsz Hassoc Hbs H.
  destruct (created_consistent dm heap sz assoc bs c Hsz Hassoc Hbs H)
    as ((W & _) & AI).
  exact (all_invalid_miss (mk_memory_reference a INSTRUCTION) c W AI).
Qed.

Lemma fresh_cache_misses_witness :
  uint 4 /\ uint 2 /\ uint 1 /\
  create_cache_struct ILP32 stale_heap 4 2 1 = Returned (Some two_way) /\
  is_miss (get_tag_from_address 3 two_way) (get_index_from_address 3 two_way)
          two_way = Returned true.
Proof.
  assert (U : forall z, 0 <= z < 4294967296 -> uint z)
    by (intros z Hz; exact Hz).
  split; [apply U; lia|]. split; [apply U; lia|]. split; [apply U; lia|].
  split; [exact two_way_created|].
  exact (fresh_cache_misses ILP32 stale_heap 4 2 1 two_way 3
           ltac:(apply U; lia) ltac:(apply U; lia) ltac:(apply U; lia)
           two_way_created).
Defined.

(** ** Address decoding *)

(** The fields of a decoded address, arithmetically: with
    [q = address / block_size], the index is [q mod number_of_sets] and the
    tag is [q / number_of_sets]. *)
Lemma decode_arithmetic dm heap sz assoc bs c a :
  uint sz -> uint assoc -> uint bs ->
  create_cache_struct dm heap sz assoc bs = Returned (Some c) ->
  0 < block_size c /\ 0 < number_of_sets c /\
  block_size c * number_of_sets c <= 2 ^ 31 /\
  get_index_from_address a c = (a / block_size c) mod number_of_sets c /\
  get_tag_from_address a c = (a / block_size c) / number_of_sets c /\
  2 ^ 32 <= block_size c * number_of_sets c * 2 ^ tag_width (addr_info c).
Proof.
  intros Hsz Hassoc Hbs H.
  destruct (create_cache_struct_inv dm heap sz assoc bs c Hsz Hassoc Hbs H)
    as (ow & iw & How & Hiw & Hsum & Ebs & _ & _ & ->).
  unfold get_index_from_address, get_tag_from_address.
  cbn [addr_info offset_width index_width tag_width block_size number_of_sets].
  subst bs.
  assert (Hm : modulus = 4294967296) by reflexivity.
  assert (Ho : 0 < 2 ^ ow) by (apply Z.pow_pos_nonneg; lia).
  assert (Hi : 0 < 2 ^ iw) by (apply Z.pow_pos_nonneg; lia).
  assert (Hi' : 2 ^ iw < 2 ^ 32) by (apply Z.pow_lt_mono_r; lia).
  assert (Hw : 32 <= 8 * sizeof_void_ptr dm) by (destruct dm; cbn; lia).
  rewrite (wrap_small (ow + iw)) by (unfold uint; lia).
  rewrite (wrap_small (Z.shiftl 1 iw - 1))
    by (rewrite Z.shiftl_1_l; unfold uint; lia).
  rewrite ones_shiftl, Z.land_ones by lia.
  rewrite !Z.shiftr_div_pow2 by lia.
  rewrite Z.pow_add_r by lia. rewrite Z.div_div by lia.
  split; [exact Ho|]. split; [exact Hi|].
  split.
  { rewrite <- Z.pow_add_r by lia. apply Z.pow_le_mono_r; lia. }
  split; [reflexivity|]. split; [reflexivity|].
  rewrite <- !Z.pow_add_r by lia. apply Z.pow_le_mono_r; lia.
Qed.

(** The decoded index is always the number of an allocated set, and the tag
    fits in [tag_width] bits. *)
Theorem decoded_fields_in_range dm heap sz assoc bs c a :
  uint sz -> uint assoc -> uint bs -> uint a ->
  create_cache_struct dm heap sz assoc bs = Returned (Some c) ->
  0 <= get_index_from_address a c < number_of_sets c /\
  0 <= get_tag_from_address a c < 2 ^ tag_width (addr_info c).
Proof.
  intros Hsz Hassoc Hbs Ha H.
  destruct (decode_arithmetic dm heap sz assoc bs c a Hsz Hassoc Hbs H)
    as (Hb & Hs & _ & -> & -> & Hcap).
  split; [apply Z.mod_pos_bound; exact Hs|].
  assert (Hq : 0 <= a / block_size c) by (apply Z.div_pos; [apply Ha|exact Hb]).
  split; [apply Z.div_pos; [exact Hq|exact Hs]|].
  rewrite Z.div_div by lia.
  apply Z.div_lt_upper_bound; [nia|].
  destruct Ha as [_ Ha]. unfold modulus in Ha. lia.
Qed.

Lemma decoded_fields_in_range_witness :
  uint 1024 /\ uint 1 /\ uint 32 /\ uint 4294967295 /\
  exists c,
    create_cache_struct LP64 stale_heap 1024 1 32 = Returned (Some c) /\
    0 <= get_index_from_address 4294967295 c < number_of_sets c.
Proof.
  assert (U : forall z, 0 <= z < 4294967296 -> uint z)
    by (intros z Hz; exact Hz).
  split; [apply U; lia|]. split; [apply U; lia|]. split; [apply U; lia|].
  split; [apply U; lia|].
  eexists. split; [vm_compute; reflexivity|].
  eapply (proj1 (decoded_fields_in_range LP64 stale_heap 1024 1 32 _ 4294967295
                   ltac:(apply U; lia) ltac:(apply U; lia) ltac:(apply U; lia)
                   ltac:(apply U; lia) ltac:(vm_compute; reflexivity))).
Defined.

(** Two addresses decode to the same tag and index exactly when they lie in
    the same memory block, that is, when they agree on
    [address / block_size]. *)
Theorem same_block_same_fields dm heap sz assoc bs c a1 a2 :
  uint sz -> uint assoc -> uint bs ->
  create_cache_struct dm heap sz assoc bs = Returned (Some c) ->
  (get_tag_from_address a1 c = get_tag_from_address a2 c /\
   get_index_from_address a1 c = get_index_from_address a2 c) <->
  a1 / block_size c = a2 / block_size c.
Proof.
  intros Hsz Hassoc Hbs H.
  destruct (decode_arithmetic dm heap sz assoc bs c a1 Hsz Hassoc Hbs H)
    as (Hb & Hs & _ & -> & -> & _).
  destruct (decode_arithmetic dm heap sz assoc bs c a2 Hsz Hassoc Hbs H)
    as (_ & _ & _ & -> & -> & _).
  split.
  - intros [Et Ei].
    rewrite (Z.div_mod (a1 / block_size c) (number_of_sets c)) by lia.
    rewrite (Z.div_mod (a2 / block_size c) (number_of_sets c)) by lia.
    rewrite Et, Ei. reflexivity.
  - intros ->. split; reflexivity.
Qed.

Lemma same_block_same_fields_witness :
  uint 1024 /\ uint 1 /\ uint 32 /\
  exists c,
    create_cache_struct ILP32 stale_heap 1024 1 32 = Returned (Some c) /\
    get_tag_from_address 4100 c = get_tag_from_address 4127 c /\
    get_index_from_address 4100 c = get_index_from_address 4127 c.
Proof.
  assert (U : forall z, 0 <= z < 4294967296 -> uint z)
    by (intros z Hz; exact Hz).
  split; [apply U; lia|]. split; [apply U; lia|]. split; [apply U; lia|].
  eexists. split; [vm_compute; reflexivity|].
  eapply (proj2 (same_block_same_fields ILP32 stale_heap 1024 1 32 _ 4100 4127
                   ltac:(apply U; lia) ltac:(apply U; lia) ltac:(apply U; lia)
                   ltac:(vm_compute; reflexivity))).
  reflexivity.
Defined.

(** ** is_miss *)

(** Hit detection works for every associativity: on a well-formed cache
    [is_miss] returns, and it answers "hit" exactly when some block of the
    indexed set is valid and carries the tag. *)
Theorem is_miss_exact tg index c :
  wf_cache c = true -> 0 <= index < number_of_sets c ->
  exists row miss,
    blocks c !! Z.to_nat index = Some row /\
    is_miss tg index c = Returned miss /\
    (miss = false <->
     exists k b, row !! k = Some b /\ valid b = true /\ tag b = tg).
Proof.
  intros W Hidx. apply wf_cache_unpack in W as (L & R & _).
  destruct (lookup_lt_is_Some_2 (blocks c) (Z.to_nat index)) as [row Hrow];
    [lia|].
  destruct (is_miss_row tg index c row Hrow (R _ _ Hrow)) as (miss & E & M).
  exists row, miss. split; [exact Hrow|]. split; [exact E|].
  rewrite M. unfold matches. split.
  - intros (k & b & Hb & Hm). apply andb_true_iff in Hm as [T V].
    apply Z.eqb_eq in T. eauto.
  - intros (k & b & Hb & V & T). exists k, b. split; [exact Hb|].
    rewrite V, T, Z.eqb_refl. reflexivity.
Qed.

Lemma is_miss_exact_witness :
  wf_cache two_way_warm = true /\ 0 <= 0 < number_of_sets two_way_warm /\
  is_miss 1 0 two_way_warm = Returned false.
Proof.
  split; [reflexivity|]. split; [cbn; lia|].
  destruct (is_miss_exact 1 0 two_way_warm eq_refl ltac:(cbn; lia))
    as (row & miss & Hrow & E & M).
  rewrite E. f_equal. apply M.
  cbn in Hrow. injection Hrow as <-.
  exists 1%nat, (mk_cache_block true false 0 1). auto.
Defined.

(** ** update_lru_info *)

Lemma find_block_no_match fuel : forall i k0 tg index c row,
  blocks c !! Z.to_nat index = Some row ->
  (i + fuel <= length row)%nat ->
  (forall j b, row !! j = Some b -> valid b = true -> tag b <> tg) ->
  find_block fuel i k0 tg index c = Returned (Some k0).
Proof.
  induction fuel as [|fuel IH]; intros i k0 tg index c row Hrow Hlen N.
  - reflexivity.
  - destruct (lookup_lt_is_Some_2 row i ltac:(lia)) as [b Hb].
    cbn [find_block]. rewrite (get_block_row _ _ _ _ _ Hrow Hb). cbn [bind].
    destruct (valid b && (tag b =? tg)) eqn:M.
    + apply andb_true_iff in M as [V T]. apply Z.eqb_eq in T.
      exfalso. exact (N i b Hb V T).
    + apply (IH (S i) k0 tg index c row Hrow); [lia|exact N].
Qed.

(** [update_lru_info] takes a hit for granted.  When no valid block of the
    set carries the tag, [block_index] keeps its initial value 0: block 0
    gets recency 0 and the recency of every other block of the set goes up
    by 1 (as [unsigned int]); nothing else changes. *)
Theorem update_lru_info_without_match tg index c row :
  wf_cache c = true ->
  blocks c !! Z.to_nat index = Some row ->
  (forall j b, row !! j = Some b -> valid b = true -> tag b <> tg) ->
  update_lru_info tg index c
  = Returned
      (with_blocks c
         (<[Z.to_nat index :=
              imap (fun j b =>
                      with_lru_value b
                        (if Nat.eqb j 0 then 0 else wrap (lru_value b + 1)))
                   row]> (blocks c))).
Proof.
  intros W Hrow N. apply wf_cache_unpack in W as (_ & R & _).
  unfold update_lru_info.
  rewrite (find_block_no_match _ 0 0 tg index c row Hrow); [|rewrite (R _ _ Hrow); lia|exact N].
  cbn [bind]. rewrite <- (R _ _ Hrow).
  rewrite (age_blocks_age_row 0 index c row Hrow).
  do 3 f_equal. unfold age_row. apply imap_ext.
  intros j b _. unfold age. destruct (Nat.eqb j 0); reflexivity.
Qed.

Lemma update_lru_info_without_match_witness :
  wf_cache two_way = true /\
  update_lru_info 5 0 two_way
  = Returned (with_blocks two_way
                [[mk_cache_block false false 0 0;
                  mk_cache_block false false 12 0];
                 [fresh_block 10; fresh_block 11]]).
Proof.
  split; [reflexivity|].
  rewrite (update_lru_info_without_match 5 0 two_way
             [fresh_block 10; fresh_block 11] eq_refl eq_refl).
  - reflexivity.
  - intros [|[|j]] b Hb V; cbn in Hb; try discriminate Hb;
      injection Hb as <-; discriminate V.
Defined.

(** ** do_reference on the caches the program can hold *)

(** After a reference the indexed set holds the referenced tag and nothing
    else: the next lookup in that set hits exactly when it asks for the same
    tag.  In particular the same address, or any address of the same block,
    hits when referenced again, and any other block mapped to the set
    misses. *)
Theorem lookup_after_reference dm c m c' a :
  reachable dm c -> do_reference m c = Returned c' ->
  get_index_from_address a c' = get_index_from_address (address m) c' ->
  is_miss (get_tag_from_address a c') (get_index_from_address a c') c'
  = Returned (negb (get_tag_from_address a c'
                    =? get_tag_from_address (address m) c')).
Proof.
  intros R H Hidx. pose proof (reachable_consistent dm c R) as Cn.
  destruct (consistent_step m c c' Cn H) as [A _].
  destruct Cn as (W & _).
  destruct (do_reference_direct_mapped m c W A)
    as (miss & b & b' & Hrow & Emiss & Hm & Eb' & E).
  rewrite E in H. injection H as <-.
  rewrite Hidx.
  set (c2 := with_perf _ _) in *.
  assert (Et : forall x, get_tag_from_address x c2 = get_tag_from_address x c)
    by reflexivity.
  assert (Ei : forall x, get_index_from_address x c2
                         = get_index_from_address x c) by reflexivity.
  rewrite !Et, Ei.
  set (tg := get_tag_from_address (address m) c) in *.
  assert (Hrow2 : blocks c2 !! Z.to_nat (get_index_from_address (address m) c)
                  = Some [b']).
  { unfold c2. cbn. eapply lookup_insert_row. exact Hrow. }
  assert (Hb' : valid b' = true /\ tag b' = tg).
  { rewrite Eb'. destruct miss; [split; reflexivity|].
    destruct (matches tg b) eqn:M; [|discriminate Hm].
    unfold matches in M. apply andb_true_iff in M as [T V].
    apply Z.eqb_eq in T. split; assumption. }
  destruct Hb' as [V T].
  destruct (is_miss_row (get_tag_from_address a c) _ c2 [b'] Hrow2)
    as (r & Er & Rr).
  { unfold c2. cbn. rewrite A. reflexivity. }
  rewrite Er. f_equal.
  destruct (Z.eqb_spec (get_tag_from_address a c) tg) as [Eq|Ne]; cbn [negb].
  - apply Rr. exists 0%nat, b'. split; [reflexivity|].
    unfold matches. rewrite V, T, Eq, Z.eqb_refl. reflexivity.
  - destruct r; [reflexivity|].
    destruct Rr as [Rr _]. destruct (Rr eq_refl) as ([|j] & b0 & Hb0 & M).
    + cbn in Hb0. injection Hb0 as <-.
      unfold matches in M. apply andb_true_iff in M as [T' _].
      apply Z.eqb_eq in T'. congruence.
    + discriminate Hb0.
Qed.

Lemma lookup_after_reference_witness :
  reachable ILP32 direct_mapped /\
  do_reference (mk_memory_reference 6 DATA_READ) direct_mapped
  = Returned
      (mk_cache 4 1 4 1 (mk_address_info 32 0 2 30)
         [[fresh_block 10]; [fresh_block 10];
          [mk_cache_block true false 0 1]; [fresh_block 10]]
         (mk_cache_perf 0 0 1 1 0 0)) /\
  is_miss 2 2
    (mk_cache 4 1 4 1 (mk_address_info 32 0 2 30)
       [[fresh_block 10]; [fresh_block 10];
        [mk_cache_block true false 0 1]; [fresh_block 10]]
       (mk_cache_perf 0 0 1 1 0 0)) = Returned true.
Proof.
  split; [exact direct_mapped_reachable|]. split; [reflexivity|].
  exact (lookup_after_reference ILP32 direct_mapped
           (mk_memory_reference 6 DATA_READ) _ 10
           direct_mapped_reachable eq_refl eq_refl).
Defined.

(** A miss installs the block: the single block of the indexed set becomes
    valid, takes the tag, is dirty exactly for a data write and has
    recency 0. *)
Theorem miss_installs_block dm c m c' :
  reachable dm c -> do_reference m c = Returned c' ->
  is_miss (get_tag_from_address (address m) c)
          (get_index_from_address (address m) c) c = Returned true ->
  blocks c' !! Z.to_nat (get_index_from_address (address m) c)
  = Some [mk_cache_block true
            (match type m with DATA_WRITE => true | _ => false end) 0
            (get_tag_from_address (address m) c)].
Proof.
  intros R H Hmiss. pose proof (reachable_consistent dm c R) as Cn.
  destruct (consistent_step m c c' Cn H) as [A _].
  destruct Cn as (W & _).
  destruct (do_reference_direct_mapped m c W A)
    as (miss & b & b' & Hrow & Emiss & Hm & Eb' & E).
  rewrite Emiss in Hmiss. injection Hmiss as ->.
  rewrite E in H. injection H as <-. cbn [blocks with_perf with_blocks].
  rewrite (lookup_insert_row _ _ _ _ Hrow), Eb'. reflexivity.
Qed.

Lemma miss_installs_block_witness :
  reachable ILP32 direct_mapped /\
  exists c',
    do_reference (mk_memory_reference 7 DATA_WRITE) direct_mapped
    = Returned c' /\
    blocks c' !! 3%nat = Some [mk_cache_block true true 0 1].
Proof.
  split; [exact direct_mapped_reachable|].
  eexists. split; [vm_compute; reflexivity|].
  exact (miss_installs_block ILP32 direct_mapped
           (mk_memory_reference 7 DATA_WRITE) _
           direct_mapped_reachable eq_refl eq_refl).
Defined.

(** A hit changes the reference counter of the category of the reference
    and nothing else: the blocks, their recencies included, the geometry and
    the other five counters are as before (all six, when the type of the
    reference is none of the enumerators). *)
Theorem hit_changes_one_counter dm c m c' :
  reachable dm c -> do_reference m c = Returned c' ->
  is_miss (get_tag_from_address (address m) c)
          (get_index_from_address (address m) c) c = Returned false ->
  c' = with_perf c (count_reference (type m) (perf c)).
Proof.
  intros R H Hmiss. pose proof (reachable_consistent dm c R) as Cn.
  destruct (consistent_step m c c' Cn H) as [A _].
  pose proof Cn as (W & _ & MRU).
  destruct (do_reference_direct_mapped m c W A)
    as (miss & b & b' & Hrow & Emiss & Hm & Eb' & E).
  rewrite Emiss in Hmiss. injection Hmiss as ->.
  rewrite E in H. injection H as <-.
  destruct (matches (get_tag_from_address (address m) c) b) eqn:M;
    [|discriminate Hm].
  unfold matches in M. apply andb_true_iff in M as [_ V].
  assert (L : lru_value b = 0) by (eapply (MRU _ [b] 0%nat b); eauto).
  assert (Eb : b' = b).
  { rewrite Eb'. destruct b; cbn in *. subst. reflexivity. }
  rewrite Eb, list_insert_id by exact Hrow.
  rewrite with_blocks_id. reflexivity.
Qed.

Lemma hit_changes_one_counter_witness :
  reachable ILP32 direct_mapped_used /\
  do_reference (mk_memory_reference 0 DATA_WRITE) direct_mapped_used
  = Returned (with_perf direct_mapped_used (mk_cache_perf 1 1 0 0 1 0)).
Proof.
  split; [exact direct_mapped_used_reachable|].
  assert (E : do_reference (mk_memory_reference 0 DATA_WRITE)
                direct_mapped_used
              = Returned (with_perf direct_mapped_used
                            (mk_cache_perf 1 1 0 0 1 0))) by reflexivity.
  exact (eq_trans E
           (f_equal Returned
              (hit_changes_one_counter ILP32 direct_mapped_used
                 (mk_memory_reference 0 DATA_WRITE) _
                 direct_mapped_used_reachable E eq_refl))).
Defined.

(** [do_reference] never invalidates a block: whatever was valid before a
    returning call is valid after it. *)
Theorem valid_blocks_stay_valid m c c' :
  wf_cache c = true -> do_reference m c = Returned c' ->
  forall n row k b,
    blocks c !! n = Some row -> row !! k = Some b -> valid b = true ->
    exists row' b',
      blocks c' !! n = Some row' /\ row' !! k = Some b' /\ valid b' = true.
Proof.
  intros W H n row k b Hrow Hb V.
  destruct (Z.eq_dec (associativity c) 1) as [A|A].
  - destruct (do_reference_direct_mapped m c W A)
      as (miss & b0 & b' & Hrow0 & _ & _ & Eb' & E).
    rewrite E in H. injection H as <-. cbn [blocks with_perf with_blocks].
    destruct (decide (n = Z.to_nat (get_index_from_address (address m) c)))
      as [->|Hne].
    + rewrite Hrow0 in Hrow. injection Hrow as <-.
      destruct k as [|k]; [|discriminate Hb]. cbn in Hb. injection Hb as ->.
      exists [b'], b'. split; [eapply lookup_insert_row; exact Hrow0|].
      split; [reflexivity|]. rewrite Eb'. destruct miss; [reflexivity|exact V].
    + exists row, b. rewrite list_lookup_insert_ne by congruence. auto.
  - destruct (wf_cache_row c (address m) W) as (row0 & Hrow0 & Hlen0).
    destruct (is_miss_row (get_tag_from_address (address m) c) _ c row0
                Hrow0 Hlen0) as ([|] & Emiss & _).
    + rewrite (do_reference_exits m c W A Emiss) in H. discriminate H.
    + destruct (do_reference_hit m c row0 Hrow0 Hlen0 Emiss)
        as (row0' & E & L & P).
      rewrite E in H. injection H as <-. cbn [blocks with_perf with_blocks].
      destruct (decide (n = Z.to_nat (get_index_from_address (address m) c)))
        as [->|Hne].
      * rewrite Hrow0 in Hrow. injection Hrow as <-.
        destruct (P k b Hb) as (b' & Hb' & V' & _).
        exists row0', b'. split; [eapply lookup_insert_row; exact Hrow0|].
        split; [exact Hb'|]. rewrite V'. exact V.
      * exists row, b. rewrite list_lookup_insert_ne by congruence. auto.
Qed.

Lemma valid_blocks_stay_valid_witness :
  wf_cache two_way_warm = true /\
  exists c',
    do_reference (mk_memory_reference 0 DATA_READ) two_way_warm = Returned c' /\
    exists row' b',
      blocks c' !! 0%nat = Some row' /\ row' !! 1%nat = Some b' /\
      valid b' = true.
Proof.
  split; [reflexivity|].
  eexists. split; [vm_compute; reflexivity|].
  exact (valid_blocks_stay_valid (mk_memory_reference 0 DATA_READ)
           two_way_warm _ eq_refl eq_refl 0%nat
           [mk_cache_block true false 1 0; mk_cache_block true false 0 1]
           1%nat (mk_cache_block true false 0 1) eq_refl eq_refl eq_refl).
Defined.

(** ** The counters, category by category *)

Lemma references_of_cons t m trace :
  references_of t (m :: trace)
  = (if REFERENCE_TYPE_eqb t (type m) then 1 else 0) + references_of t trace.
Proof.
  unfold references_of. cbn [List.filter].
  destruct (REFERENCE_TYPE_eqb t (type m)); cbn [length]; lia.
Qed.

Lemma do_references_per_category trace : forall c c' n,
  do_references trace c = Returned c' ->
  perf_within n (perf c) ->
  n + counted_references trace < modulus ->
  (forall t, miss_count t (perf c) <= reference_count t (perf c)) ->
  forall t,
    counted t = true ->
    reference_count t (perf c')
    = reference_count t (perf c) + references_of t trace /\
    0 <= miss_count t (perf c') <= reference_count t (perf c').
Proof.
  induction trace as [|m trace IH]; intros c c' n H B L M t Ht.
  - cbn in H. injection H as <-. unfold references_of. cbn.
    destruct (B t) as [_ [? _]]. specialize (M t). lia.
  - cbn [do_references] in H.
    destruct (do_reference m c) as [c1| |] eqn:E; cbn [bind] in H;
      try discriminate H.
    apply do_reference_counters in E as (miss & _ & _ & P).
    rewrite counted_references_cons in L.
    pose proof (counted_references_bounds trace) as [T0 _].
    assert (Hm : modulus = 4294967296) by reflexivity.
    assert (B1 : perf_within (n + (if counted (type m) then 1 else 0))
                   (perf c1)).
    { intros t'. destruct (B t') as [[? ?] [? ?]].
      destruct t'; [counters_at P c1..|cbn [reference_count miss_count] in *];
        destruct (type m), miss;
        cbn [REFERENCE_TYPE_eqb andb counted] in L |- *;
        rewrite ?wrap_small by (unfold uint; lia); lia. }
    assert (M1 : forall t', miss_count t' (perf c1)
                            <= reference_count t' (perf c1)).
    { intros t'. destruct (B t') as [[? ?] [? ?]]. specialize (M t').
      destruct t'; [counters_at P c1..|cbn [reference_count miss_count]; lia];
        destruct (type m), miss;
        cbn [REFERENCE_TYPE_eqb andb counted] in L |- *;
        rewrite ?wrap_small by (unfold uint; lia); lia. }
    destruct (IH c1 c' _ H B1 ltac:(lia) M1 t Ht) as [R' M'].
    rewrite references_of_cons. destruct (P t Ht) as [Pr _].
    rewrite Pr in R'. destruct (B t) as [[? ?] _].
    split; [|exact M'].
    rewrite R'.
    destruct t, (type m); try discriminate Ht;
      cbn [REFERENCE_TYPE_eqb counted] in L |- *;
      rewrite ?wrap_small by (unfold uint; lia); lia.
Qed.

(** From construction, as long as fewer than 2^32 references of the three
    categories have been processed, each reference counter holds the number
    of references of its category in the trace, whatever references of no
    category the trace holds besides, and each miss counter is at most the
    reference counter of its category. *)
Theorem counters_per_category dm heap sz assoc bs c0 trace c' t :
  create_cache_struct dm heap sz assoc bs = Returned (Some c0) ->
  do_references trace c0 = Returned c' ->
  counted_references trace < modulus ->
  counted t = true ->
  reference_count t (perf c') = references_of t trace /\
  0 <= miss_count t (perf c') <= reference_count t (perf c').
Proof.
  intros Hc Hrun Hlen Ht. apply create_cache_struct_perf in Hc.
  assert (B0 : perf_within 0 (perf c0)).
  { rewrite Hc. intros t'. destruct t'; cbn; lia. }
  assert (M0 : forall t', miss_count t' (perf c0)
                          <= reference_count t' (perf c0)).
  { rewrite Hc. intros t'. destruct t'; cbn; lia. }
  destruct (do_references_per_category trace c0 c' 0 Hrun B0 ltac:(lia) M0 t Ht)
    as [R M].
  rewrite Hc in R. split; [|exact M].
  rewrite R. destruct t; reflexivity.
Qed.

Lemma counters_per_category_witness :
  create_cache_struct ILP32 stale_heap 4 1 1 = Returned (Some direct_mapped) /\
  exists c',
    do_references [mk_memory_reference 0 INSTRUCTION;
                   mk_memory_reference 1 DATA_WRITE;
                   mk_memory_reference 0 DATA_READ;
                   mk_memory_reference 2 OUT_OF_RANGE;
                   mk_memory_reference 5 DATA_READ] direct_mapped
    = Returned c' /\
    reference_count DATA_READ (perf c') = 2.
Proof.
  split; [exact direct_mapped_created|].
  eexists. split; [vm_compute; reflexivity|].
  exact (proj1 (counters_per_category ILP32 stale_heap 4 1 1 direct_mapped
                  [mk_memory_reference 0 INSTRUCTION;
                   mk_memory_reference 1 DATA_WRITE;
                   mk_memory_reference 0 DATA_READ;
                   mk_memory_reference 2 OUT_OF_RANGE;
                   mk_memory_reference 5 DATA_READ] _ DATA_READ
                  direct_mapped_created ltac:(vm_compute; reflexivity)
                  ltac:(vm_compute; reflexivity) ltac:(reflexivity))).
Defined.

(** ** The driver *)

Lemma to_int_small z : 0 <= z < 2 ^ 31 -> to_int z = z.
Proof.
  intros Hz. unfold to_int.
  destruct (Z.ltb_spec z (2 ^ 31)); [reflexivity|lia].
Qed.

(** The totals [main] reports.  After a run from construction that holds
    fewer than 2^31 references of the three categories, [references] is the
    number of those references (the references of no category, which the
    reader delivers for a letter it does not know, are processed and left
    out of the total), so it is the number of references processed when each
    has a category; [misses] lies between 0 and [references] and is at least
    1 when the first reference has a category (it always misses); and [hits]
    is their difference: it is never negative. *)
Theorem statistics_of_run dm heap sz assoc bs c0 trace c' :
  uint sz -> uint assoc -> uint bs ->
  create_cache_struct dm heap sz assoc bs = Returned (Some c0) ->
  do_references trace c0 = Returned c' ->
  counted_references trace < 2 ^ 31 ->
  exists misses,
    statistics c'
    = (counted_references trace, misses, counted_references trace - misses) /\
    0 <= misses <= counted_references trace /\
    (Forall (fun m => counted (type m) = true) trace ->
     counted_references trace = Z.of_nat (length trace)) /\
    (forall m rest,
       trace = m :: rest -> counted (type m) = true -> 1 <= misses).
Proof.
  intros Hsz Hassoc Hbs Hc Hrun Hlen.
  assert (Hm : modulus = 4294967296) by reflexivity.
  assert (H31 : 2 ^ 31 = 2147483648) by reflexivity.
  pose proof (counted_references_bounds trace) as [T0 _].
  pose proof (create_cache_struct_perf _ _ _ _ _ _ Hc) as Hp.
  assert (B0 : perf_within 0 (perf c0)).
  { rewrite Hp. intros t. destruct t; cbn; lia. }
  assert (S0 : sum_reference_counts (perf c0) = 0) by (rewrite Hp; reflexivity).
  assert (M0 : forall t, miss_count t (perf c0) <= reference_count t (perf c0)).
  { rewrite Hp. intros t. destruct t; cbn; lia. }
  destruct (do_references_counters trace c0 c' 0 Hrun B0 S0 ltac:(lia))
    as (S & B & _).
  pose proof (do_references_per_category trace c0 c' 0 Hrun B0 ltac:(lia) M0)
    as PC.
  destruct (PC INSTRUCTION eq_refl) as [_ [MI0 MI]].
  destruct (PC DATA_READ eq_refl) as [_ [MR0 MR]].
  destruct (PC DATA_WRITE eq_refl) as [_ [MW0 MW]].
  destruct (B INSTRUCTION) as [[RI0 _] _].
  destruct (B DATA_READ) as [[RR0 _] _].
  destruct (B DATA_WRITE) as [[RW0 _] _].
  unfold sum_reference_counts in S.
  cbn [reference_count miss_count] in *.
  rewrite Z.add_0_l in S.
  exists (instruction_miss_count (perf c') + data_read_miss_count (perf c')
          + data_write_miss_count (perf c')).
  split; [|split; [|split]].
  - unfold statistics.
    rewrite (wrap_small (instruction_reference_count (perf c')
                         + data_read_reference_count (perf c')))
      by (unfold uint; lia).
    rewrite (wrap_small (instruction_miss_count (perf c')
                         + data_read_miss_count (perf c')))
      by (unfold uint; lia).
    rewrite S.
    rewrite (wrap_small (counted_references trace)) by (unfold uint; lia).
    rewrite (wrap_small (instruction_miss_count (perf c')
                         + data_read_miss_count (perf c')
                         + data_write_miss_count (perf c')))
      by (unfold uint; lia).
    cbv zeta.
    rewrite (to_int_small (counted_references trace)) by lia.
    rewrite (to_int_small (instruction_miss_count (perf c')
                           + data_read_miss_count (perf c')
                           + data_write_miss_count (perf c'))) by lia.
    rewrite wrap_small by (unfold uint; lia).
    rewrite to_int_small by lia. reflexivity.
  - lia.
  - apply counted_references_all.
  - intros m rest -> Hcat.
    cbn [do_references] in Hrun.
    destruct (do_reference m c0) as [c1| |] eqn:E; cbn [bind] in Hrun;
      try discriminate Hrun.
    destruct (created_consistent dm heap sz assoc bs c0 Hsz Hassoc Hbs Hc)
      as ((W & _) & AI).
    pose proof (all_invalid_miss m c0 W AI) as Hmiss.
    pose proof (do_reference_counters m c0 c1 E) as (miss & Emiss & _ & P).
    rewrite Hmiss in Emiss. injection Emiss as <-.
    rewrite counted_references_cons, Hcat in Hlen.
    pose proof (counted_references_bounds rest) as [R0 _].
    assert (B1 : perf_within 1 (perf c1)).
    { intros t.
      destruct t; [counters_at P c1; rewrite Hp..|];
        destruct (type m); repeat split; vm_compute; discriminate. }
    assert (S1 : sum_reference_counts (perf c1) = 1).
    { unfold sum_reference_counts.
      pose proof (P INSTRUCTION eq_refl) as [PI _].
      pose proof (P DATA_READ eq_refl) as [PR _].
      pose proof (P DATA_WRITE eq_refl) as [PW _].
      cbn [reference_count] in PI, PR, PW. rewrite PI, PR, PW, Hp.
      destruct (type m); try discriminate Hcat; reflexivity. }
    destruct (do_references_counters rest c1 c' 1 Hrun B1 S1 ltac:(lia))
      as (_ & _ & L).
    assert (M1 : miss_count (type m) (perf c1) = 1).
    { destruct (P (type m) Hcat) as [_ ->]. rewrite Hp.
      destruct (type m); try discriminate Hcat; reflexivity. }
    destruct (L (type m)) as [_ Lm]. rewrite M1 in Lm.
    destruct (type m); try discriminate Hcat; cbn [miss_count] in Lm; lia.
Qed.

Lemma statistics_of_run_witness :
  uint 1024 /\ uint 1 /\ uint 32 /\
  exists c0 c',
    create_cache_struct ILP32 stale_heap 1024 1 32 = Returned (Some c0) /\
    do_references [mk_memory_reference 0 INSTRUCTION;
                   mk_memory_reference 32 OUT_OF_RANGE;
                   mk_memory_reference 32 INSTRUCTION;
                   mk_memory_reference 0 INSTRUCTION] c0 = Returned c' /\
    exists misses, statistics c' = (3, misses, 3 - misses) /\ 1 <= misses.
Proof.
  assert (U : forall z, 0 <= z < 4294967296 -> uint z)
    by (intros z Hz; exact Hz).
  split; [apply U; lia|]. split; [apply U; lia|]. split; [apply U; lia|].
  eexists. eexists. split; [vm_compute; reflexivity|].
  split; [vm_compute; reflexivity|].
  destruct (statistics_of_run ILP32 stale_heap 1024 1 32 _
              [mk_memory_reference 0 INSTRUCTION;
               mk_memory_reference 32 OUT_OF_RANGE;
               mk_memory_reference 32 INSTRUCTION;
               mk_memory_reference 0 INSTRUCTION] _
              ltac:(apply U; lia) ltac:(apply U; lia) ltac:(apply U; lia)
              ltac:(vm_compute; reflexivity) ltac:(vm_compute; reflexivity)
              ltac:(vm_compute; reflexivity)) as (misses & E & _ & _ & M).
  exists misses. split; [exact E|]. exact (M _ _ eq_refl eq_refl).
Defined.

(** [main] returns -1 exactly when it is not given four arguments or one of
    its own checks fails: a size, associativity or block size that is not
    positive, or a size below the block size or the associativity. *)
Theorem main_returns_minus_one dm heap argc cache_size cache_associativity
    cache_block_size trace :
  main dm heap argc cache_size cache_associativity cache_block_size trace
  = Returned (-1) <->
  (argc <> 5 \/ cache_size <= 0 \/ cache_associativity <= 0 \/
   cache_block_size <= 0 \/ cache_size < cache_block_size \/
   cache_size < cache_associativity).
Proof.
  unfold main.
  destruct (Z.eqb_spec argc 5) as [E5|N5]; cbn [negb];
    [|split; [intros _; left; exact N5|reflexivity]].
  destruct (Z.leb_spec cache_size 0);
  destruct (Z.leb_spec cache_associativity 0);
  destruct (Z.leb_spec cache_block_size 0);
  destruct (Z.ltb_spec cache_size cache_block_size);
  destruct (Z.ltb_spec cache_size cache_associativity);
  cbn [orb]; cbv zeta;
  try (change (-1 =? -1) with true; cbv iota;
       split; [intros _; lia|reflexivity]).
  change (0 =? -1) with false. cbv iota.
  split; [|lia].
  destruct (create_cache_struct _ _ _ _ _) as [c| |]; cbn [bind];
    try discriminate.
  destruct trace as [refs|]; [|discriminate].
  destruct (reference_loop refs c) as [[c'|]| |]; cbn [bind]; discriminate.
Qed.

Lemma reference_loop_direct_mapped refs : forall c,
  consistent c -> associativity c = 1 ->
  exists c', reference_loop refs (Some c) = Returned (Some c').
Proof.
  induction refs as [|m refs IH]; intros c Cn A.
  - eexists. reflexivity.
  - destruct Cn as (W & Cn').
    destruct (do_reference_direct_mapped m c W A)
      as (miss & b & b' & _ & _ & _ & _ & E).
    cbn [reference_loop do_reference_ptr]. rewrite E. cbn [bind].
    apply IH.
    + eapply consistent_step; [split; [exact W|exact Cn']|exact E].
    + exact A.
Qed.

(** [main] on arguments that pass its checks and describe a valid geometry.
    With associativity 1 every trace is processed to its end and [main]
    returns 0.  With a larger associativity the process exits with status 1
    at the first reference of the trace.  When the trace file cannot be
    opened the result of [open_trace_file] is not looked at and the run ends
    in a null dereference. *)
Theorem main_on_valid_geometry dm heap cache_size cache_associativity
    cache_block_size c :
  0 < cache_associativity <= cache_size ->
  0 < cache_block_size <= cache_size ->
  cache_size < 2 ^ 31 ->
  create_cache_struct dm heap (wrap cache_size) (wrap cache_associativity)
    (wrap cache_block_size) = Returned (Some c) ->
  (cache_associativity = 1 ->
   forall refs,
     main dm heap 5 cache_size cache_associativity cache_block_size (Some refs)
     = Returned 0) /\
  (cache_associativity <> 1 ->
   forall mr refs,
     main dm heap 5 cache_size cache_associativity cache_block_size
       (Some (mr :: refs)) = Exited 1) /\
  main dm heap 5 cache_size cache_associativity cache_block_size None
  = Crashed NullDereference.
Proof.
  intros Ha Hb Hs Hc.
  assert (Hm : modulus = 4294967296) by reflexivity.
  assert (H31 : 2 ^ 31 = 2147483648) by reflexivity.
  assert (Emain : forall trace,
            main dm heap 5 cache_size cache_associativity cache_block_size trace
            = match trace with
              | None => Crashed NullDereference
              | Some refs =>
                  c' <- reference_loop refs (Some c) ;;
                  match c' with
                  | None => Crashed NullDereference
                  | Some _ => Returned 0
                  end
              end).
  { intros trace. unfold main.
    change (negb (5 =? 5)) with false. cbv iota.
    destruct (Z.leb_spec cache_size 0); [lia|].
    destruct (Z.leb_spec cache_associativity 0); [lia|].
    destruct (Z.leb_spec cache_block_size 0); [lia|].
    destruct (Z.ltb_spec cache_size cache_block_size); [lia|].
    destruct (Z.ltb_spec cache_size cache_associativity); [lia|].
    cbn [orb]. cbv zeta. change (0 =? -1) with false. cbv iota.
    rewrite Hc. reflexivity. }
  destruct (created_consistent dm heap _ _ _ c (wrap_uint _) (wrap_uint _)
              (wrap_uint _) Hc) as (Cn & AI).
  destruct (create_cache_struct_inv dm heap _ _ _ c (wrap_uint _) (wrap_uint _)
              (wrap_uint _) Hc) as (ow & iw & _ & _ & _ & _ & _ & _ & Ec).
  assert (A : associativity c = cache_associativity).
  { rewrite Ec. cbn [associativity]. apply wrap_small. unfold uint. lia. }
  split; [|split].
  - intros A1 refs. rewrite Emain.
    destruct (reference_loop_direct_mapped refs c Cn ltac:(lia)) as [c' ->].
    reflexivity.
  - intros N1 mr refs. rewrite Emain.
    cbn [reference_loop do_reference_ptr].
    rewrite (do_reference_exits mr c (proj1 Cn) ltac:(lia)
               (all_invalid_miss mr c (proj1 Cn) AI)).
    reflexivity.
  - rewrite Emain. reflexivity.
Qed.

Lemma main_on_valid_geometry_witness :
  0 < 1 <= 4 /\ 0 < 1 <= 4 /\ 4 < 2 ^ 31 /\
  create_cache_struct ILP32 stale_heap (wrap 4) (wrap 1) (wrap 1)
  = Returned (Some direct_mapped) /\
  main ILP32 stale_heap 5 4 1 1
    (Some [mk_memory_reference 0 INSTRUCTION; mk_memory_reference 4 DATA_WRITE])
  = Returned 0.
Proof.
  assert (Hc : create_cache_struct ILP32 stale_heap (wrap 4) (wrap 1) (wrap 1)
               = Returned (Some direct_mapped)) by (vm_compute; reflexivity).
  split; [lia|]. split; [lia|]. split; [reflexivity|]. split; [exact Hc|].
  exact (proj1 (main_on_valid_geometry ILP32 stale_heap 4 1 1 direct_mapped
                  ltac:(lia) ltac:(lia) ltac:(reflexivity) Hc) eq_refl _).
Defined.

(** ** Memory safety of a run *)

Lemma do_reference_keeps_shape m c c' :
  wf_cache c = true -> do_reference m c = Returned c' -> wf_cache c' = true.
Proof.
  intros W H.
  destruct (wf_cache_row c (address m) W) as (row0 & Hrow0 & Hlen0).
  destruct (Z.eq_dec (associativity c) 1) as [A|A].
  - destruct (do_reference_direct_mapped m c W A)
      as (miss & b & b' & Hrow & _ & _ & _ & E).
    rewrite E in H. injection H as <-.
    eapply wf_cache_replace; [exact W|exact Hrow|reflexivity].
  - destruct (is_miss_row (get_tag_from_address (address m) c) _ c row0
                Hrow0 Hlen0) as ([|] & Emiss & _).
    + rewrite (do_reference_exits m c W A Emiss) in H. discriminate H.
    + destruct (do_reference_hit m c row0 Hrow0 Hlen0 Emiss)
        as (row0' & E & L & _).
      rewrite E in H. injection H as <-.
      eapply wf_cache_replace; [exact W|exact Hrow0|exact L].
Qed.

(** A run over any trace, started on a well-formed cache, never reads or
    writes outside the allocated blocks: it either processes the whole trace
    and returns a well-formed cache, or ends at the [exit(1)] of
    [handle_miss]. *)
Theorem run_stays_in_bounds trace : forall c,
  wf_cache c = true ->
  (exists c', do_references trace c = Returned c' /\ wf_cache c' = true) \/
  (associativity c <> 1 /\ do_references trace c = Exited 1).
Proof.
  induction trace as [|m trace IH]; intros c W.
  - left. exists c. split; [reflexivity|exact W].
  - cbn [do_references].
    destruct (do_reference_defined m c W) as [[c1 E]|[A E]].
    + rewrite E. cbn [bind].
      pose proof (do_reference_keeps_shape m c c1 W E) as W1.
      destruct (IH c1 W1) as [H|[A H]]; [left; exact H|].
      right. split; [|exact H].
      apply do_reference_frame in E as (_ & _ & _ & _ & E & _).
      rewrite <- E. exact A.
    + right. split; [exact A|]. rewrite E. reflexivity.
Qed.

Lemma run_stays_in_bounds_witness :
  wf_cache two_way_warm = true /\
  do_references [mk_memory_reference 0 DATA_READ;
                 mk_memory_reference 2 DATA_WRITE;
                 mk_memory_reference 4 INSTRUCTION] two_way_warm = Exited 1.
Proof.
  split; [reflexivity|].
  destruct (run_stays_in_bounds
              [mk_memory_reference 0 DATA_READ;
               mk_memory_reference 2 DATA_WRITE;
               mk_memory_reference 4 INSTRUCTION] two_way_warm eq_refl)
    as [(c' & E & _)|[_ E]].
  - exfalso. vm_compute in E. discriminate E.
  - exact E.
Defined.

(** ** determine_address_widths on a geometry that is not valid *)

(** The failure behaviour its header documents: when the block size or the
    number of sets is not a power of two, the address and tag widths are
    left at 0, the width that could not be computed is left at 0, and a
    width that could be computed is stored; nothing else in the cache
    changes. *)
Theorem determine_address_widths_failure dm c :
  uint (block_size c) -> uint (number_of_sets c) ->
  ~ power_of_two (block_size c) \/ ~ power_of_two (number_of_sets c) ->
  let c' := determine_address_widths dm c in
  c' = with_addr_info c (addr_info c') /\
  address_width (addr_info c') = 0 /\ tag_width (addr_info c') = 0 /\
  offset_width (addr_info c')
  = (if is_power_of_two (block_size c) then Z.log2 (block_size c) else 0) /\
  index_width (addr_info c')
  = (if is_power_of_two (number_of_sets c)
     then Z.log2 (number_of_sets c) else 0).
Proof.
  intros Ub Us Hbad. cbn zeta. rewrite determine_address_widths_eq. cbv zeta.
  assert (Hneg : wrap (-1) = 4294967295) by reflexivity.
  assert (Hm : modulus = 4294967296) by reflexivity.
  assert (L : forall n, uint n ->
            (is_power_of_two n = true /\
             (wrap (log_two n) =? wrap (-1)) = false /\
             wrap (log_two n) = Z.log2 n) \/
            (is_power_of_two n = false /\
             (wrap (log_two n) =? wrap (-1)) = true)).
  { intros n Un. destruct (is_power_of_two n) eqn:P.
    - left. split; [reflexivity|].
      destruct (is_power_of_two_true n Un P) as (k & Hk & ->).
      destruct (pow2_accepted k Hk) as [_ ->].
      rewrite Z.log2_pow2 by lia.
      rewrite wrap_small by (unfold uint; lia). rewrite Hneg.
      split; [apply Z.eqb_neq; lia|reflexivity].
    - right. split; [reflexivity|]. rewrite log_two_eq, P. reflexivity. }
  assert (Pb := is_power_of_two_spec (block_size c) Ub).
  assert (Ps := is_power_of_two_spec (number_of_sets c) Us).
  destruct (L (block_size c) Ub) as [(Eb & Cb & Vb)|(Eb & Cb)];
    destruct (L (number_of_sets c) Us) as [(Es & Cs & Vs)|(Es & Cs)];
    rewrite Eb, Es, Cb, Cs; cbn [negb andb];
    cbn [addr_info with_addr_info address_width offset_width index_width
         tag_width];
    try (repeat split; first [reflexivity | assumption]).
  exfalso. destruct Hbad as [N|N]; apply N; [apply Pb|apply Ps]; assumption.
Qed.

Lemma determine_address_widths_failure_witness :
  uint 4 /\ uint 3 /\ ~ power_of_two 3 /\
  address_width
    (addr_info (determine_address_widths ILP32
                  (mk_cache 12 1 3 4 (mk_address_info 7 7 7 7) [] zero_perf)))
  = 0 /\
  offset_width
    (addr_info (determine_address_widths ILP32
                  (mk_cache 12 1 3 4 (mk_address_info 7 7 7 7) [] zero_perf)))
  = 2.
Proof.
  assert (U : forall z, 0 <= z < 4294967296 -> uint z)
    by (intros z Hz; exact Hz).
  assert (N : ~ power_of_two 3).
  { intros (k & Hk & E).
    assert (k < 2) by (apply (Z.pow_lt_mono_r_iff 2); [lia|lia|cbn; lia]).
    assert (k = 0 \/ k = 1) as [-> | ->] by lia; discriminate E. }
  split; [apply U; lia|]. split; [apply U; lia|]. split; [exact N|].
  destruct (determine_address_widths_failure ILP32
              (mk_cache 12 1 3 4 (mk_address_info 7 7 7 7) [] zero_perf)
              ltac:(apply U; cbn; lia) ltac:(apply U; cbn; lia)
              (or_intror N))
    as (_ & A & _ & O & _).
  split; [exact A|]. rewrite O. vm_compute. reflexivity.
Defined.
